(** * Grade calculator (src/main.py): a shallow embedding and its properties

    The program reads weights for three grading components, then either
    grades students interactively or grades the rows of a CSV file.

    - A Python [float] is an IEEE-754 binary64 number: it is embedded as
      Rocq's primitive [float], whose operations round to nearest-even as
      CPython's do.  The integer literals of the source ([40], [90], ...)
      only ever meet floats in arithmetic and comparisons, where Python
      converts them to the same binary64 value, so they are written as
      floats; the one visible difference is the text of a printed default
      weight ([40], not [40.0]), on which nothing here depends.
    - A [dict] that is iterated ([weights], [defaults]) is an association
      list in insertion order; a [dict] that is only looked up ([scores],
      a CSV row) is a [gmap].
    - [input], [print], [open] and exceptions are threaded through a state
      and error monad over a [world] (pending input lines, output so far,
      files).  Printed text is kept as the pieces of its f-string, so that
      no decimal rendering of floats has to be modelled. *)

From Stdlib Require Import ZArith List String Ascii Bool Floats Lia.
From stdpp Require Import gmap strings list fin_maps.

Set Warnings "-inexact-float".
Local Open Scope float_scope.

(** ** Ordered dictionaries *)

Module ODict.

Definition t (V : Type) : Type := list (string * V).

Definition keys {V} (d : t V) : list string := d.*1.
Definition values {V} (d : t V) : list V := d.*2.

(** [d.get(k)] *)
Fixpoint get {V} (k : string) (d : t V) : option V :=
  match d with
  | [] => None
  | (k', v) :: d' => if String.eqb k k' then Some v else get k d'
  end.

(** [d[k] = v]: an existing key keeps its place, a new key goes last. *)
Fixpoint set {V} (k : string) (v : V) (d : t V) : t V :=
  match d with
  | [] => [(k, v)]
  | (k', v') :: d' =>
      if String.eqb k k' then (k, v) :: d' else (k', v') :: set k v d'
  end.

(** [{k: f(v) for k, v in d.items()}] *)
Definition map_values {V W} (f : V -> W) (d : t V) : t W :=
  (fun kv => (kv.1, f kv.2)) <$> d.

End ODict.

(** ** Constants of the module *)

Definition DEFAULT_WEIGHTS : ODict.t float :=
  [("assignment"%string, 40); ("midterm"%string, 30); ("final"%string, 30)].

Definition GRADE_SCALE : list (float * string) :=
  [(90, "A"); (85, "A-"); (80, "B+"); (75, "B"); (70, "B-");
   (65, "C+"); (60, "C"); (50, "D"); (0, "F")]%string.

(** ** The grade engine *)

(** The [for min_pct, letter in scale: if pct >= min_pct: return letter]
    loop, with the [return "F"] that follows it. *)
Fixpoint scan_scale (scale : list (float * string)) (pct : float) : string :=
  match scale with
  | [] => "F"%string
  | (min_pct, letter) :: rest =>
      if min_pct <=? pct then letter else scan_scale rest pct
  end.

Definition percentage_to_letter (pct : float) : string :=
  scan_scale GRADE_SCALE pct.

(** [scores.get(comp, 0)] then [float(...)]: the scores are floats already. *)
Definition score_of (scores : gmap string float) (comp : string) : float :=
  default 0 (scores !! comp).

(** [total = 0.0; for comp, weight in weights.items(): total += ...] *)
Definition calculate_weighted_percentage
    (scores : gmap string float) (weights : ODict.t float) : float :=
  fold_left
    (fun total cw => total + score_of scores cw.1 * (cw.2 / 100))
    weights 0.

(** ** Output, exceptions and the world *)

(** A printed line is kept as the pieces of its f-string: literal text and
    the values that fill the holes, each with its format. *)
Inductive frag : Type :=
  | Lit (s : string)        (* literal text, or a [str] placed in a hole *)
  | Num (x : float)         (* [{x}] for a float: [str(x)] *)
  | Fix2 (x : float)        (* [{x:.2f}] *)
  | Dec (n : Z)             (* [{n}] for an int *)
  | Quoted (s : string).    (* [repr(s)] of a [str] *)

Definition line : Type := list frag.

Inductive event : Type :=
  | Prompt (l : line)       (* the prompt [input] writes, no newline *)
  | Print (l : line).       (* a line written by [print] *)

Inductive exn : Type :=
  | ValueError (msg : line)
  | TypeError (msg : line)
  | OSError (msg : line)
  | EOFError
  | SystemExit (code : Z).

(** [except Exception] catches everything here but [SystemExit]. *)
Definition is_Exception (e : exn) : bool :=
  match e with SystemExit _ => false | _ => true end.

(** [str(e)] *)
Definition str_of_exn (e : exn) : line :=
  match e with
  | ValueError msg | TypeError msg | OSError msg => msg
  | EOFError => [Lit "EOF when reading a line"]
  | SystemExit code => [Dec code]
  end.

(** The records [csv.reader] yields for a file, header included. *)
Definition csv_records : Type := list (list string).

Record world : Type := World {
  stdin : list string;                (* the lines still to be typed *)
  stdout : list event;                (* what has been written, in order *)
  files : gmap string csv_records;    (* the readable CSV files, by path *)
}.

Definition emit (e : event) (w : world) : world :=
  {| stdin := stdin w; stdout := stdout w ++ [e]; files := files w |}.

Inductive outcome (A : Type) : Type :=
  | Return (a : A)
  | Raise (e : exn)
  | OutOfFuel.
Arguments Return {A} a.
Arguments Raise {A} e.
Arguments OutOfFuel {A}.

Definition io (A : Type) : Type := world -> outcome A * world.

#[global] Instance io_ret : MRet io := fun A a w => (Return a, w).

#[global] Instance io_bind : MBind io := fun A B f m w =>
  match m w with
  | (Return a, w') => f a w'
  | (Raise e, w') => (Raise e, w')
  | (OutOfFuel, w') => (OutOfFuel, w')
  end.

#[global] Instance io_fmap : FMap io := fun A B f m =>
  a ← m; mret (f a).

Definition raise {A} (e : exn) : io A := fun w => (Raise e, w).

Definition print (l : line) : io unit := fun w => (Return (), emit (Print l) w).

(** [input(prompt)]: writes the prompt, then takes the next line, or raises
    [EOFError] when the input is exhausted. *)
Definition input (prompt : line) : io string := fun w =>
  match stdin w with
  | [] => (Raise EOFError, emit (Prompt prompt) w)
  | s :: rest =>
      (Return s,
       {| stdin := rest; stdout := stdout w ++ [Prompt prompt]; files := files w |})
  end.

(** How many lines of input are still to come (used only to bound loops). *)
Definition pending_lines : io nat := fun w => (Return (length (stdin w)), w).

(** [try: m  except Exception as e: h e] *)
Definition try_except {A} (m : io A) (h : exn -> io A) : io A := fun w =>
  match m w with
  | (Raise e, w') => if is_Exception e then h e w' else (Raise e, w')
  | r => r
  end.

(** [for x in xs: s = body x s] *)
Fixpoint for_each {A S} (xs : list A) (body : A -> S -> io S) (s : S) : io S :=
  match xs with
  | [] => mret s
  | x :: xs' => s' ← body x s; for_each xs' body s'
  end.

(** The re-prompting loop that the source writes three times:
<<
    while True:
        s = input(prompt)
        try:
            a = body(s)        # raises ValueError: [None]
            break
        except ValueError:
            print(complaint)
>>
    Every turn takes one line of input, so the loop is a recursion on the
    pending input. *)
Fixpoint input_until_from {A} (prompt : line) (body : string -> option A)
    (complaint : line) (inp : list string) (out : list event)
    : outcome A * (list string * list event) :=
  match inp with
  | [] => (Raise EOFError, ([], out ++ [Prompt prompt]))
  | s :: inp' =>
      match body s with
      | Some a => (Return a, (inp', out ++ [Prompt prompt]))
      | None =>
          input_until_from prompt body complaint inp'
            (out ++ [Prompt prompt; Print complaint])
      end
  end.

Definition input_until {A} (prompt : line) (body : string -> option A)
    (complaint : line) : io A := fun w =>
  let '(r, (inp, out)) :=
    input_until_from prompt body complaint (stdin w) (stdout w) in
  (r, {| stdin := inp; stdout := out; files := files w |}).

(** The process exit status for the outcome of [main]: an uncaught
    exception ends the interpreter with status 1, [sys.exit(n)] with [n]. *)
Definition exit_status {A} (r : outcome A) : Z :=
  match r with
  | Return _ => 0
  | Raise (SystemExit code) => code
  | Raise _ => 1
  | OutOfFuel => 1
  end.

(** ** Builtins of the interpreter

    [str.strip], [str.lower], [float(s)] and [int(s)] are the
    interpreter's, not the program's: the program is embedded over any
    implementation of them.  [None] stands for the [ValueError] that
    [float] and [int] raise on a string they cannot parse. *)
Class Builtins : Type := {
  str_strip : string -> string;
  str_lower : string -> string;
  float_of_str : string -> option float;
  int_of_str : string -> option Z;
}.

Section Program.

Context `{Builtins}.

(** *** parse_csv *)

(** The dict [csv.DictReader] builds for a record: [dict(zip(fieldnames,
    row))], and [None] for the fields a short row leaves out.  (The extra
    cells of a long row go under the key [None], which no component
    name equals.) *)
Definition DictReader_row (fieldnames record : list string)
    : gmap string (option string) :=
  let d := fold_left (fun d kv => <[kv.1 := Some kv.2]> d)
             (zip fieldnames record) ∅ in
  fold_left (fun d key => <[key := None]> d)
    (drop (length record) fieldnames) d.

(** [float(row[comp])] *)
Definition float_of_cell (cell : option string) : exn + float :=
  match cell with
  | None =>
      inl (TypeError
             [Lit "float() argument must be a string or a real number, not 'NoneType'"])
  | Some s =>
      match float_of_str s with
      | Some x => inr x
      | None => inl (ValueError [Lit "could not convert string to float: "; Quoted s])
      end
  end.

(** [{comp: float(row[comp]) for comp in components}] *)
Fixpoint scores_of_row (row : gmap string (option string))
    (components : list string) (scores : gmap string float)
    : exn + gmap string float :=
  match components with
  | [] => inr scores
  | comp :: rest =>
      match float_of_cell (default None (row !! comp)) with
      | inl e => inl e
      | inr x => scores_of_row row rest (<[comp := x]> scores)
      end
  end.

(** One turn of [for row in reader]: what is yielded, or the exception
    raised instead. *)
Definition parse_row (components fieldnames record : list string)
    : exn + (option string * gmap string float) :=
  let row := DictReader_row fieldnames record in
  let name := default None (row !! "name"%string) in
  match scores_of_row row components ∅ with
  | inl e => inl e
  | inr scores => inr (name, scores)
  end.

(** [open(input_path, ...)] and the reading of its records. *)
Definition open (input_path : string) : io csv_records := fun w =>
  match files w !! input_path with
  | Some records => (Return records, w)
  | None =>
      (Raise (OSError [Lit "[Errno 2] No such file or directory: "; Quoted input_path]), w)
  end.

Definition check_field (fieldnames : list string) (field : string) (_ : unit)
    : io unit :=
  if bool_decide (field ∈ fieldnames) then mret ()
  else raise (ValueError [Lit "CSV is missing required column: "; Lit field]).

(** The generator: it opens the file and checks the header when first
    advanced, so those failures are raised by the action itself; then it
    yields row by row, and a row that cannot be parsed raises when the
    consumer reaches it.  [reader.fieldnames] is the first record, or
    [None] for an empty file; [DictReader] skips empty records. *)
Definition parse_csv (input_path : string) (components : list string)
    : io (list (exn + (option string * gmap string float))) :=
  records ← open input_path;
  let required_fields := "name"%string :: components in
  match records with
  | [] => raise (TypeError [Lit "argument of type 'NoneType' is not iterable"])
  | fieldnames :: rows =>
      for_each required_fields (check_field fieldnames) ();;
      mret (parse_row components fieldnames <$>
              filter (fun record => record ≠ []) rows)
  end.

(** *** prompt_weights *)

Definition show_default (kv : string * float) (_ : unit) : io unit :=
  print [Lit "  "; Lit kv.1; Lit ": "; Num kv.2; Lit "%"].

(** The [try] block of the weight loop for one component, whose default
    is [dflt = defaults[comp]]. *)
Definition weight_entry (dflt : float) (s : string) : option float :=
  let val := str_strip s in
  w ← (if String.eqb val "" then Some dflt else float_of_str val);
  if w <? 0 then None else Some w.

Definition ask_weight (kv : string * float) (weights : ODict.t float)
    : io (ODict.t float) :=
  w ← input_until
        [Lit "Enter weight for '"; Lit kv.1; Lit "' (current "; Num kv.2; Lit "): "]
        (weight_entry kv.2)
        [Lit "Please enter a non-negative number (or leave blank)."];
  mret (ODict.set kv.1 w weights).

(** [sum(weights.values())]: additions from left to right, from 0.
    (CPython 3.12 and later also accumulate the rounding errors of these
    additions and add them at the end when they are finite; that term is
    0 whenever the additions are exact, and is dropped when the sum
    overflows.) *)
Definition sum_values (weights : ODict.t float) : float :=
  fold_left (fun acc v => acc + v) (ODict.values weights) 0.

(** The normalization step that ends [prompt_weights]. *)
Definition normalize (weights : ODict.t float) : io (ODict.t float) :=
  let total := sum_values weights in
  if 1e-6 <? abs (total - 100) then
    print [Lit "Weights sum to "; Num total;
           Lit ", but must sum to 100. Normalizing proportionally."];;
    if total =? 0 then
      raise (ValueError [Lit "All weights are zero; can't normalize."])
    else
      mret (ODict.map_values (fun v => v / total * 100) weights)
  else mret weights.

Definition prompt_weights (defaults : ODict.t float) : io (ODict.t float) :=
  print [Lit "Current/default weights (percent):"];;
  for_each defaults show_default ();;
  ans ← input [Lit "Would you like to change weights? (y/N): "];
  if negb (String.eqb (str_lower (str_strip ans)) "y") then mret defaults
  else
    weights ← for_each defaults ask_weight [];
    normalize weights.

(** *** interactive_mode *)

(** The [try] block of the score loop. *)
Definition score_entry (s : string) : option float :=
  score ← float_of_str (str_strip s);
  if negb ((0 <=? score) && (score <=? 100)) then None else Some score.

Definition ask_score (comp : string) (scores : gmap string float)
    : io (gmap string float) :=
  score ← input_until [Lit "  "; Lit comp; Lit " score (0-100): "]
            score_entry [Lit "  Enter a number between 0 and 100."];
  mret (<[comp := score]> scores).

(** [scores = {}; for comp in components: ...] *)
Definition read_scores (components : list string) : io (gmap string float) :=
  for_each components ask_score ∅.

(** The result line of a student, after what [lead] puts before it. *)
Definition report (lead : line) (name : string) (scores : gmap string float)
    (weights : ODict.t float) : io unit :=
  let pct := calculate_weighted_percentage scores weights in
  let letter := percentage_to_letter pct in
  print (lead ++ [Lit name; Lit ": "; Fix2 pct; Lit "% -> "; Lit letter]).

(** The [while True] loop over students.  Each turn reads a name, so
    [fuel] beyond the number of pending lines is never used up. *)
Fixpoint until_q (fuel : nat) (components : list string)
    (weights : ODict.t float) : io unit :=
  match fuel with
  | O => fun w => (OutOfFuel, w)
  | S fuel' =>
      name ← str_strip <$> input [Lit "Student name (or 'q' to quit): "];
      if String.eqb (str_lower name) "q" then mret ()
      else
        scores ← read_scores components;
        report [Lit "  => "] name scores weights;;
        until_q fuel' components weights
  end.

(** The body of [for i in range(count)]. *)
Definition numbered_student (components : list string)
    (weights : ODict.t float) (i : Z) (_ : unit) : io unit :=
  name ← str_strip <$> input [Lit "Student #"; Dec (i + 1); Lit " name: "];
  scores ← read_scores components;
  report [Lit "  => "] name scores weights.

Definition interactive_mode (weights : ODict.t float) : io unit :=
  let components := ODict.keys weights in
  n ← str_strip <$>
        input [Lit "How many students to enter? (leave blank to enter until 'q'): "];
  if String.eqb n "" then
    print [Lit "Enter student data. Type 'q' as name to quit."];;
    pending ← pending_lines;
    until_q (S pending) components weights
  else
    match int_of_str n with
    | None => print [Lit "Invalid number, aborting."]
    | Some count =>
        for_each (seqZ 0 count) (numbered_student components weights) ()
    end.

(** *** csv_mode *)

Definition report_row (weights : ODict.t float)
    (item : exn + (option string * gmap string float)) (_ : unit) : io unit :=
  match item with
  | inl e => raise e
  | inr (name, scores) => report [] (default "None"%string name) scores weights
  end.

Definition csv_mode (path : string) (weights : ODict.t float) : io unit :=
  let components := ODict.keys weights in
  try_except
    (items ← parse_csv path components;
     for_each items (report_row weights) ())
    (fun e => print ([Lit "Error processing CSV:"; Lit " "] ++ str_of_exn e)).

(** *** main *)

(** [args.csv]: [None] without the flag. *)
Record Args : Type := { csv : option string }.

(** [main], from the [try] of line 180 on, for the [args] that
    [parser.parse_args()] returned; [script] below puts the parsing of the
    command line before it. *)

Definition main (args : Args) : io unit :=
  weights ← try_except (prompt_weights DEFAULT_WEIGHTS)
              (fun e =>
                 print ([Lit "Error with weights:"; Lit " "] ++ str_of_exn e);;
                 raise (SystemExit 1));
  match csv args with
  | Some path =>
      if String.eqb path "" then interactive_mode weights
      else csv_mode path weights
  | None => interactive_mode weights
  end.

End Program.

(** ** The command line

    [parser.parse_args()] is argparse's: for the command line of the
    process it returns the [Args], or ends the process itself, with
    status 2 for a command line it rejects and with status 0 after the
    help text.  What it then wrote to the standard output is kept with
    the status.  The program is embedded over any such parser. *)
Class Argparse : Type := {
  parse_args : list string -> list event * Z + Args;
}.

(** The script run with the command line [argv]: the whole of [main()],
    lines 175 to 189. *)
Definition script `{Builtins} `{Argparse} (argv : list string) : io unit :=
  match parse_args argv with
  | inl (out, code) => fun w =>
      (Raise (SystemExit code),
       {| stdin := stdin w; stdout := stdout w ++ out; files := files w |})
  | inr args => main args
  end.

(** ** A concrete interpreter for ASCII input

    An implementation of the builtins on ASCII strings, used to run the
    program on concrete inputs: [strip] removes ASCII white space, [lower]
    folds [A-Z], [int] reads an optionally signed decimal numeral and
    [float] a decimal literal with optional fraction and exponent, [inf],
    [infinity] or [nan], rounded to the nearest binary64 value (ties to
    even) as CPython does.  Underscores between digits, which CPython
    also accepts, are not read. *)
Module Ascii_builtins.

Definition is_space (c : ascii) : bool :=
  let n := nat_of_ascii c in
  ((n =? 32) || ((9 <=? n) && (n <=? 13)) || ((28 <=? n) && (n <=? 31)))%nat.

Fixpoint lstrip (cs : list ascii) : list ascii :=
  match cs with
  | c :: cs' => if is_space c then lstrip cs' else cs
  | [] => []
  end.

Definition strip_chars (cs : list ascii) : list ascii :=
  rev (lstrip (rev (lstrip cs))).

Definition py_strip (s : string) : string :=
  string_of_list_ascii (strip_chars (list_ascii_of_string s)).

Definition lower_char (c : ascii) : ascii :=
  let n := nat_of_ascii c in
  if ((65 <=? n) && (n <=? 90))%nat then ascii_of_nat (n + 32) else c.

Definition py_lower (s : string) : string :=
  string_of_list_ascii (lower_char <$> list_ascii_of_string s).

Definition digit_value (c : ascii) : option Z :=
  let n := nat_of_ascii c in
  if ((48 <=? n) && (n <=? 57))%nat then Some (Z.of_nat (n - 48)) else None.

(** The value of a run of digits read after [acc], or [None] when a
    character is not a digit. *)
Fixpoint digits_from (acc : Z) (cs : list ascii) : option Z :=
  match cs with
  | [] => Some acc
  | c :: cs' => d ← digit_value c; digits_from (10 * acc + d)%Z cs'
  end.

(** A non-empty run of digits. *)
Definition numeral (cs : list ascii) : option Z :=
  match cs with [] => None | _ => digits_from 0 cs end.

(** An optional sign, then the rest. *)
Definition split_sign (cs : list ascii) : bool * list ascii :=
  match cs with
  | "-"%char :: cs' => (true, cs')
  | "+"%char :: cs' => (false, cs')
  | _ => (false, cs)
  end.

Definition signed_numeral (cs : list ascii) : option Z :=
  let '(neg, ds) := split_sign cs in
  n ← numeral ds; Some (if neg then - n else n)%Z.

Definition py_int (s : string) : option Z :=
  signed_numeral (strip_chars (list_ascii_of_string s)).

(** [cs] cut at the first character satisfying [p]. *)
Fixpoint break (p : ascii -> bool) (cs : list ascii)
    : list ascii * option (list ascii) :=
  match cs with
  | [] => ([], None)
  | c :: cs' =>
      if p c then ([], Some cs')
      else let '(before, after) := break p cs' in (c :: before, after)
  end.

(** The binary64 value nearest to [(-1)^neg * m * 10^e]. *)
Definition decimal_to_float (neg : bool) (m : Z) (e : Z) : float :=
  match m with
  | Zpos p =>
      if (0 <=? e)%Z then
        SF2Prim (binary_normalize prec emax
                   (if neg then - (m * 10 ^ e) else m * 10 ^ e)%Z 0 false)
      else
        SF2Prim (SFdiv prec emax (S754_finite neg p 0)
                   (S754_finite false (Z.to_pos (10 ^ (- e))) 0))
  | _ => if neg then (-0)%float else 0%float
  end.

Definition is_e (c : ascii) : bool :=
  (nat_of_ascii c =? 101)%nat || (nat_of_ascii c =? 69)%nat.

Definition is_dot (c : ascii) : bool := (nat_of_ascii c =? 46)%nat.

Definition decimal_literal (neg : bool) (cs : list ascii) : option float :=
  let '(mant, expo) := break is_e cs in
  let '(ipart, fpart) := break is_dot mant in
  let fdigits := default [] fpart in
  match ipart ++ fdigits with
  | [] => None
  | ds =>
      m ← digits_from 0 ds;
      e ← match expo with
          | None => Some 0%Z
          | Some es => signed_numeral es
          end;
      Some (decimal_to_float neg m (e - Z.of_nat (length fdigits)))
  end.

Definition py_float (s : string) : option float :=
  let '(neg, body) := split_sign (strip_chars (list_ascii_of_string s)) in
  let word := string_of_list_ascii (lower_char <$> body) in
  if String.eqb word "inf" || String.eqb word "infinity" then
    Some (if neg then neg_infinity else infinity)
  else if String.eqb word "nan" then Some nan
  else decimal_literal neg body.

#[export] Instance builtins : Builtins := {|
  str_strip := py_strip;
  str_lower := py_lower;
  float_of_str := py_float;
  int_of_str := py_int;
|}.

End Ascii_builtins.

(** ** A parser for plain command lines

    The two command lines of the usage text, no argument or [--csv PATH];
    every other command line is rejected with status 2.  ([-h],
    [--csv=PATH] and abbreviated options, which argparse also accepts,
    are not read.) *)
Module Plain_argparse.

Definition is_option (arg : string) : bool :=
  match arg with
  | String "-"%char _ => true
  | _ => false
  end.

Definition plain_parse_args (argv : list string) : list event * Z + Args :=
  match argv with
  | [] => inr {| csv := None |}
  | [flag; path] =>
      if String.eqb flag "--csv" && negb (is_option path)
      then inr {| csv := Some path |}
      else inl ([], 2%Z)
  | _ => inl ([], 2%Z)
  end.

#[export] Instance argparse : Argparse := {| parse_args := plain_parse_args |}.

End Plain_argparse.

(** * Specification-level notions *)

(** The sum of a list of numbers, added from left to right from 0. *)
Definition sum_left (xs : list float) : float :=
  fold_left (fun acc x => acc + x) xs 0.

(** What one component of [weights] adds to the weighted percentage, in
    the words of the specification: its score, or 0 when [scores] has no
    entry for it, times its weight over 100. *)
Definition contribution (scores : gmap string float) (cw : string * float) : float :=
  match scores !! cw.1 with
  | Some score => score * (cw.2 / 100)
  | None => 0 * (cw.2 / 100)
  end.

(** [pct] meets or exceeds the threshold at index [i] of [scale] and none
    before it: the entry a scan from the highest threshold down stops at. *)
Definition first_met (scale : list (float * string)) (pct : float)
    (i : nat) (letter : string) : Prop :=
  (exists min_pct, scale !! i = Some (min_pct, letter) /\ (min_pct <=? pct) = true) /\
  (forall j min_pct' letter', (j < i)%nat ->
     scale !! j = Some (min_pct', letter') -> (min_pct' <=? pct) = false).

(** [x] is within 1e-6 of 100. *)
Definition near_100 (x : float) : bool := abs (x - 100) <=? 1e-6.

(** The float of a whole number. *)
Definition whole (n : nat) : float := of_uint63 (Uint63.of_Z (Z.of_nat n)).

(** Weights for the three default components that are whole numbers of
    percent, each from 0 to 100. *)
Definition whole_percents (weights : ODict.t float) : Prop :=
  exists a m f : nat,
    (a <= 100)%nat /\ (m <= 100)%nat /\ (f <= 100)%nat /\
    weights = [("assignment"%string, whole a); ("midterm"%string, whole m);
               ("final"%string, whole f)].

(** For such weights: when the total differs from 100 by more than 1e-6
    and is not 0, the rescaled values sum to 100 within 1e-6. *)
Definition rescale_check (a m f : nat) : bool :=
  let weights := [("assignment"%string, whole a); ("midterm"%string, whole m);
                  ("final"%string, whole f)] in
  let total := sum_values weights in
  implb ((1e-6 <? abs (total - 100)) && negb (total =? 0))
    (near_100 (sum_values (ODict.map_values (fun v => v / total * 100) weights))).

(** The first of the [required] fields that [fieldnames] lacks. *)
Definition first_missing (fieldnames required : list string) : option string :=
  List.find (fun field => negb (bool_decide (field ∈ fieldnames))) required.

(** A run starts with some lines to be typed, nothing written yet, and
    some files. *)
Definition start (inp : list string) (fs : gmap string csv_records) : world :=
  {| stdin := inp; stdout := []; files := fs |}.

(** An action ends well when it returns or raises one of the [allowed]
    exceptions, never stops for lack of fuel, and takes lines off the
    pending input without adding any. *)
Definition ends_well {A} (allowed : exn -> Prop) (m : io A) : Prop :=
  forall w r w', m w = (r, w') ->
    (length (stdin w') <= length (stdin w))%nat /\
    match r with
    | Return _ => True
    | Raise e => allowed e
    | OutOfFuel => False
    end.

(** The prompts of interactive mode. *)
Definition how_many_prompt : line :=
  [Lit "How many students to enter? (leave blank to enter until 'q'): "].

Definition score_prompt (comp : string) : line :=
  [Lit "  "; Lit comp; Lit " score (0-100): "].

Definition score_complaint : line := [Lit "  Enter a number between 0 and 100."].

(** The position in [scale] at which the scan stops for [pct]: the index
    of the first threshold met, or the length of [scale] when none is. *)
Fixpoint scan_rank (scale : list (float * string)) (pct : float) : nat :=
  match scale with
  | [] => 0
  | (min_pct, _) :: rest =>
      if min_pct <=? pct then 0%nat else S (scan_rank rest pct)
  end.

(** What [prompt_weights] prints before it asks whether to change the
    weights. *)
Definition defaults_listing (defaults : ODict.t float) : list event :=
  Print [Lit "Current/default weights (percent):"]
  :: ((fun kv => Print [Lit "  "; Lit kv.1; Lit ": "; Num kv.2; Lit "%"]) <$> defaults).

Definition change_prompt : line := [Lit "Would you like to change weights? (y/N): "].

Definition zero_weights_error : exn :=
  ValueError [Lit "All weights are zero; can't normalize."].

(** The line a run prints for a student. *)
Definition result_line (lead : line) (name : string) (scores : gmap string float)
    (weights : ODict.t float) : event :=
  Print (lead ++ [Lit name; Lit ": ";
                  Fix2 (calculate_weighted_percentage scores weights);
                  Lit "% -> ";
                  Lit (percentage_to_letter
                         (calculate_weighted_percentage scores weights))]).

(** The line CSV mode prints for a row that was parsed. *)
Definition row_line (weights : ODict.t float)
    (row : option string * gmap string float) : event :=
  result_line [] (default "None"%string row.1) row.2 weights.

(** The number of result lines of interactive mode in an output. *)
Definition is_result (e : event) : bool :=
  match e with
  | Print (Lit lead :: _) => String.eqb lead "  => "
  | _ => false
  end.

Definition result_lines (out : list event) : nat :=
  length (List.filter is_result out).

(** An action is quiet when it prints no result line. *)
Definition quiet {A} (m : io A) : Prop :=
  forall w r w', m w = (r, w') -> result_lines (stdout w') = result_lines (stdout w).

Definition quit_banner : line := [Lit "Enter student data. Type 'q' as name to quit."].

Definition name_prompt : line := [Lit "Student name (or 'q' to quit): "].

Definition weight_prompt (kv : string * float) : line :=
  [Lit "Enter weight for '"; Lit kv.1; Lit "' (current "; Num kv.2; Lit "): "].

(** [sum] of a list of floats as CPython 3.12 and later compute it: the
    first float is added to the initial [0] as it is; from then on every
    addition keeps its rounding error in [c] (Neumaier's algorithm), and
    the errors are added at the end when they are not zero and are
    finite. *)
Definition neumaier_step (fc : float * float) (x : float) : float * float :=
  let t := fc.1 + x in
  (t, if abs x <=? abs fc.1 then fc.2 + ((fc.1 - t) + x)
      else fc.2 + ((x - t) + fc.1)).

Definition sum_compensated (xs : list float) : float :=
  match xs with
  | [] => 0
  | x :: rest =>
      let fc := fold_left neumaier_step rest (0 + x, 0) in
      if negb (fc.2 =? 0) && is_finite fc.2 then fc.1 + fc.2 else fc.1
  end.

(** For whole-number weights of the three default components: the plain
    and the compensated total agree and, unless the total is 0, the
    weights the normalization step returns sum to 100 within 1e-6,
    whichever way they are added. *)
Definition whole_check (a m f : nat) : bool :=
  let weights := [("assignment"%string, whole a); ("midterm"%string, whole m);
                  ("final"%string, whole f)] in
  let total := sum_values weights in
  let out := if 1e-6 <? abs (total - 100)
             then ODict.map_values (fun v => v / total * 100) weights
             else weights in
  (sum_compensated (ODict.values weights) =? total) &&
  ((total =? 0) ||
   (near_100 (sum_values out) && near_100 (sum_compensated (ODict.values out)))).

(** * The grade engine *)

Section Grade_engine.

Lemma fold_left_ext_in {A B} (f g : A -> B -> A) (l : list B) (a : A) :
  (forall acc x, x ∈ l -> f acc x = g acc x) ->
  fold_left f l a = fold_left g l a.
Proof.
  revert a. induction l as [|x l IH]; intros a Hfg; simpl; [done|].
  rewrite (Hfg a x) by left.
  apply IH. intros acc y Hy. apply Hfg. by right.
Qed.

Lemma fold_left_fmap {A B C} (f : A -> C -> A) (g : B -> C) (l : list B) (a : A) :
  fold_left f (g <$> l) a = fold_left (fun acc x => f acc (g x)) l a.
Proof. revert a. induction l as [|x l IH]; intros a; simpl; [done|apply IH]. Qed.

Lemma score_of_contribution scores cw :
  score_of scores cw.1 * (cw.2 / 100) = contribution scores cw.
Proof. unfold score_of, contribution. by destruct (scores !! cw.1). Qed.

Lemma weighted_percentage_sum scores weights :
  calculate_weighted_percentage scores weights =
  sum_left (contribution scores <$> weights).
Proof.
  unfold calculate_weighted_percentage, sum_left.
  rewrite fold_left_fmap. apply fold_left_ext_in.
  intros acc cw _. by rewrite score_of_contribution.
Qed.

(** The weighted percentage looks at [scores] only under the keys of
    [weights]. *)
Lemma weighted_percentage_agree scores1 scores2 weights :
  (forall comp, comp ∈ ODict.keys weights -> scores1 !! comp = scores2 !! comp) ->
  calculate_weighted_percentage scores1 weights =
  calculate_weighted_percentage scores2 weights.
Proof.
  intros Hagree. unfold calculate_weighted_percentage.
  apply fold_left_ext_in. intros acc [comp weight] Hin.
  unfold score_of. simpl. rewrite Hagree; [done|].
  unfold ODict.keys. apply list_elem_of_fmap. by exists (comp, weight).
Qed.

Lemma scan_scale_first_met scale pct i letter :
  first_met scale pct i letter -> scan_scale scale pct = letter.
Proof.
  revert i. induction scale as [|[m l] scale IH]; intros i [[t [Hi Ht]] Hbefore].
  - by rewrite lookup_nil in Hi.
  - destruct i as [|i]; simpl in *.
    + injection Hi as -> ->. by rewrite Ht.
    + rewrite (Hbefore 0%nat m l) by (done || lia).
      apply (IH i). split; [by exists t|].
      intros j m' l' Hj Hl. apply (Hbefore (S j) m' l'); [lia|done].
Qed.

(** Binary64 comparison of a number with two positive numbers of one
    exponent, read on the specification of comparison. *)
Lemma SFltb_SFleb_below (m1 m2 : positive) (e : Z) (x : spec_float) :
  (m2 <= m1)%positive ->
  SFltb (S754_finite false m1 e) x = true ->
  SFleb (S754_finite false m2 e) x = true.
Proof.
  intros Hm. unfold SFltb, SFleb, SFcompare.
  destruct x as [s|s| |s m e']; try discriminate.
  - destruct s; [discriminate|reflexivity].
  - destruct s; [discriminate|].
    destruct (Z.compare_spec e e') as [He|He|He]; try discriminate; [|reflexivity].
    rewrite !Pos.compare_cont_spec. unfold Pos.switch_Eq.
    destruct (Pos.compare_spec m1 m) as [H1|H1|H1]; try discriminate.
    intros _.
    destruct (Pos.compare_spec m2 m) as [H2|H2|H2]; try reflexivity. lia.
Qed.

Lemma above_100_meets_90 pct : (100 <? pct) = true -> (90 <=? pct) = true.
Proof.
  rewrite ltb_spec, leb_spec.
  replace (Prim2SF 100) with (S754_finite false 7036874417766400 (-46))
    by (vm_compute; reflexivity).
  replace (Prim2SF 90) with (S754_finite false 6333186975989760 (-46))
    by (vm_compute; reflexivity).
  apply SFltb_SFleb_below. vm_compute. discriminate.
Qed.

End Grade_engine.

Section Grade_engine_claims.

Lemma scan_scale_none_met scale pct :
  (forall entry, entry ∈ scale -> (entry.1 <=? pct) = false) ->
  scan_scale scale pct = "F"%string.
Proof.
  induction scale as [|[m l] scale IH]; intros Hnone; simpl; [done|].
  pose proof (Hnone (m, l) ltac:(left)) as Hm. simpl in Hm. rewrite Hm.
  apply IH. intros entry Hin. apply Hnone. by right.
Qed.

(** The scan stops at the first threshold met, or no threshold is met. *)
Lemma scan_scale_cases scale pct :
  (exists i, first_met scale pct i (scan_scale scale pct)) \/
  (forall entry, entry ∈ scale -> (entry.1 <=? pct) = false).
Proof.
  induction scale as [|[m l] scale IH]; simpl.
  - right. intros entry Hin. by apply elem_of_nil in Hin.
  - destruct (m <=? pct) eqn:Hm.
    + left. exists 0%nat. split; [by exists m|]. intros j ? ? Hj. lia.
    + destruct IH as [[i [[t [Hi Ht]] Hbefore]]|Hnone].
      * left. exists (S i). split; [by exists t|].
        intros [|j] m' l' Hj Hl; simpl in Hl.
        -- by injection Hl as <- <-.
        -- apply (Hbefore j m' l'); [lia|done].
      * right. intros entry [->|Hin]%elem_of_cons; [done|by apply Hnone].
Qed.

(** C2: the weighted percentage is the sum, over the components of
    [weights] in order, of the component's score (0 when [scores] has no
    entry for it) times its weight over 100; a component without a score
    adds [0 * (weight / 100)] and raises nothing;
    [weightedPercentage({}, {"a": 100}) = 0] and
    [weightedPercentage({"a": 80}, {"a": 100}) = 80]. *)
Theorem weighted_percentage_spec :
  (forall scores weights,
     calculate_weighted_percentage scores weights =
     sum_left (contribution scores <$> weights)) /\
  (forall scores comp weight,
     contribution (delete comp scores) (comp, weight) = 0 * (weight / 100)) /\
  calculate_weighted_percentage ∅ [("a"%string, 100)] = 0 /\
  calculate_weighted_percentage {["a"%string := 80]} [("a"%string, 100)] = 80.
Proof.
  split; [exact weighted_percentage_sum|].
  split; [|split; vm_compute; reflexivity].
  intros scores comp weight. unfold contribution. simpl.
  by rewrite lookup_delete_eq.
Qed.

(** C3: [percentage_to_letter] returns the letter of the first threshold
    of the descending table that the percentage meets or exceeds (and
    "F" when it meets none); 90 gives "A", 89.999 "A-", 50 "D", 49.999
    "F", 0 "F", and every percentage above 100 gives "A". *)
Theorem percentage_to_letter_spec :
  GRADE_SCALE =
    [(90, "A"); (85, "A-"); (80, "B+"); (75, "B"); (70, "B-");
     (65, "C+"); (60, "C"); (50, "D"); (0, "F")]%string /\
  (forall pct i letter,
     first_met GRADE_SCALE pct i letter -> percentage_to_letter pct = letter) /\
  (forall pct,
     (exists i, first_met GRADE_SCALE pct i (percentage_to_letter pct)) \/
     ((forall entry, entry ∈ GRADE_SCALE -> (entry.1 <=? pct) = false) /\
      percentage_to_letter pct = "F"%string)) /\
  percentage_to_letter 90 = "A"%string /\
  percentage_to_letter 89.999 = "A-"%string /\
  percentage_to_letter 50 = "D"%string /\
  percentage_to_letter 49.999 = "F"%string /\
  percentage_to_letter 0 = "F"%string /\
  (forall pct, (100 <? pct) = true -> percentage_to_letter pct = "A"%string).
Proof.
  split; [reflexivity|].
  split; [intros pct i letter; apply scan_scale_first_met|].
  split.
  { intros pct. destruct (scan_scale_cases GRADE_SCALE pct) as [Hmet|Hnone].
    - by left.
    - right. split; [done|]. by apply scan_scale_none_met. }
  do 5 (split; [vm_compute; reflexivity|]).
  intros pct Hpct. unfold percentage_to_letter. simpl.
  by rewrite (above_100_meets_90 pct Hpct).
Qed.

Lemma percentage_to_letter_spec_witness :
  percentage_to_letter 72.5 = "B-"%string /\
  percentage_to_letter 250 = "A"%string.
Proof.
  destruct percentage_to_letter_spec as (_ & Hfirst & _ & _ & _ & _ & _ & _ & Habove).
  split.
  - apply (Hfirst 72.5 4%nat "B-"%string). split.
    + exists 70. split; reflexivity.
    + intros j m l Hj Hl.
      do 4 (destruct j as [|j]; [injection Hl as <- <-; reflexivity|]). lia.
  - apply Habove. reflexivity.
Defined.

(** C9: entries of [scores] under keys that are not keys of [weights]
    have no effect: merging in a mapping [extra] whose keys are disjoint
    from the keys of [weights] (whichever side wins on a shared key)
    leaves the weighted percentage unchanged. *)
Theorem extra_scores_ignored scores extra weights :
  (forall comp, comp ∈ dom extra -> comp ∉ ODict.keys weights) ->
  calculate_weighted_percentage (extra ∪ scores) weights =
    calculate_weighted_percentage scores weights /\
  calculate_weighted_percentage (scores ∪ extra) weights =
    calculate_weighted_percentage scores weights.
Proof.
  intros Hdisjoint.
  assert (forall comp, comp ∈ ODict.keys weights -> extra !! comp = None) as Hnone.
  { intros comp Hin. apply not_elem_of_dom. intros Hdom.
    by apply (Hdisjoint comp). }
  split; apply weighted_percentage_agree; intros comp Hin.
  - by apply lookup_union_r, Hnone.
  - by apply lookup_union_l, Hnone.
Qed.

Lemma extra_scores_ignored_witness :
  calculate_weighted_percentage
    ({["bonus"%string := 15]} ∪ {["assignment"%string := 80; "midterm"%string := 70]})
    DEFAULT_WEIGHTS =
  calculate_weighted_percentage
    {["assignment"%string := 80; "midterm"%string := 70]} DEFAULT_WEIGHTS.
Proof.
  apply (extra_scores_ignored
           {["assignment"%string := 80; "midterm"%string := 70]}
           {["bonus"%string := 15]} DEFAULT_WEIGHTS).
  intros comp Hin. apply elem_of_dom in Hin as [x Hx].
  apply lookup_singleton_Some in Hx as [<- _].
  unfold DEFAULT_WEIGHTS, ODict.keys. simpl.
  rewrite !elem_of_cons, elem_of_nil. intros [?|[?|[?|[]]]]; discriminate.
Defined.

End Grade_engine_claims.

(** * Facts about binary64 comparison *)

Section Float_comparison.

Lemma SFcompare_swap (x y : spec_float) :
  SFcompare y x = CompOpp <$> SFcompare x y.
Proof.
  destruct x as [sx|sx| |sx mx ex], y as [sy|sy| |sy my ey]; simpl;
    try reflexivity; try (by destruct sx); try (by destruct sy);
    try (by destruct sx, sy).
  change PosDef.Pos.compare_cont with Pos.compare_cont.
  destruct sx, sy; simpl; try reflexivity.
  - rewrite (Z.compare_antisym ex ey).
    destruct (ex ?= ey)%Z; simpl; try reflexivity.
    by rewrite CompOpp_involutive, (Pos.compare_cont_antisym my mx Eq).
  - rewrite (Z.compare_antisym ex ey).
    destruct (ex ?= ey)%Z; simpl; try reflexivity.
    by rewrite (Pos.compare_cont_antisym mx my Eq).
Qed.

(** [x <= y] excludes [y < x]. *)
Lemma leb_not_ltb (x y : float) : (x <=? y) = true -> (y <? x) = false.
Proof.
  rewrite leb_spec, ltb_spec. unfold SFleb, SFltb.
  rewrite (SFcompare_swap (Prim2SF x) (Prim2SF y)).
  by destruct (SFcompare (Prim2SF x) (Prim2SF y)) as [[]|].
Qed.

(** A number equal to 0 is one of the two zeros. *)
Lemma eqb_zero_cases (x : float) : (x =? 0) = true -> x = 0 \/ x = (-0).
Proof.
  rewrite FloatAxioms.eqb_spec. unfold SFeqb.
  replace (Prim2SF 0) with (S754_zero false) by (vm_compute; reflexivity).
  intros Heq. rewrite <- (SF2Prim_Prim2SF x).
  destruct (Prim2SF x) as [s|s| |s m e]; simpl in Heq; try discriminate.
  - destruct s; [right|left]; vm_compute; reflexivity.
  - by destruct s.
  - by destruct s.
Qed.

(** A positive number is not equal to 0. *)
Lemma ltb_zero_not_eqb (x : float) : (0 <? x) = true -> (x =? 0) = false.
Proof.
  rewrite FloatAxioms.eqb_spec, ltb_spec. unfold SFeqb, SFltb.
  rewrite (SFcompare_swap (Prim2SF 0) (Prim2SF x)).
  by destruct (SFcompare (Prim2SF 0) (Prim2SF x)) as [[]|].
Qed.

End Float_comparison.

(** * Running actions *)

Section Running.

Context `{Builtins}.

Lemma bind_inv {A B} (m : io A) (k : A -> io B) w r w2 :
  (m ≫= k) w = (r, w2) ->
  (exists a w1, m w = (Return a, w1) /\ k a w1 = (r, w2)) \/
  (exists e, m w = (Raise e, w2) /\ r = Raise e) \/
  (m w = (OutOfFuel, w2) /\ r = OutOfFuel).
Proof.
  unfold mbind, io_bind. destruct (m w) as [[a|e|] w1]; intros Hk.
  - left. by exists a, w1.
  - right. left. exists e. by injection Hk as <- <-.
  - right. right. by injection Hk as <- <-.
Qed.

(** The re-prompting loop skips the lines its body rejects, answering each
    with the complaint, and stops at the first line it accepts. *)
Lemma input_until_from_skips {A} prompt (body : string -> option A) complaint
    rejected s a rest out :
  Forall (fun r => body r = None) rejected ->
  body s = Some a ->
  input_until_from prompt body complaint (rejected ++ s :: rest) out =
  (Return a,
   (rest, out ++ (rejected ≫= fun _ => [Prompt prompt; Print complaint])
              ++ [Prompt prompt])).
Proof.
  intros Hrej Hs. revert out.
  induction Hrej as [|r rejected Hr _ IH]; intros out; simpl.
  - by rewrite Hs.
  - rewrite Hr, IH. by rewrite <- !app_assoc.
Qed.

(** What the loop returns was accepted by its body. *)
Lemma input_until_from_Return {A} prompt (body : string -> option A) complaint
    inp out a st :
  input_until_from prompt body complaint inp out = (Return a, st) ->
  exists s, s ∈ inp /\ body s = Some a.
Proof.
  revert out. induction inp as [|s inp IH]; intros out; simpl; [done|].
  destruct (body s) as [a'|] eqn:Hs.
  - intros [= <- <-]. exists s. split; [left|done].
  - intros Hrec. destruct (IH _ Hrec) as [s' [Hin Hs']].
    exists s'. split; [by right|done].
Qed.

(** The loop ends by returning or at the end of the input, and takes
    lines off the input only. *)
Lemma input_until_from_outcome {A} prompt (body : string -> option A) complaint
    inp out r inp' out' :
  input_until_from prompt body complaint inp out = (r, (inp', out')) ->
  (length inp' <= length inp)%nat /\
  match r with Return _ => True | Raise e => e = EOFError | OutOfFuel => False end.
Proof.
  revert out. induction inp as [|s inp IH]; intros out; simpl.
  - by intros [= <- <- <-].
  - destruct (body s) as [a|].
    + intros [= <- <- <-]. split; [lia|done].
    + intros Hrec. destruct (IH _ Hrec). split; [lia|done].
Qed.

End Running.

(** * Weight configuration *)

Section Weights.

Lemma keys_map_values {V W} (f : V -> W) (d : ODict.t V) :
  ODict.keys (ODict.map_values f d) = ODict.keys d.
Proof.
  unfold ODict.keys, ODict.map_values.
  induction d as [|[k v] d IH]; csimpl; [done|by f_equal].
Qed.

Lemma values_map_values {V W} (f : V -> W) (d : ODict.t V) :
  ODict.values (ODict.map_values f d) = f <$> ODict.values d.
Proof.
  unfold ODict.values, ODict.map_values.
  induction d as [|[k v] d IH]; csimpl; [done|by f_equal].
Qed.

Lemma normalize_unchanged weights w :
  near_100 (sum_values weights) = true ->
  normalize weights w = (Return weights, w).
Proof.
  unfold near_100, normalize. intros Hnear.
  by rewrite (leb_not_ltb _ _ Hnear).
Qed.

Lemma normalize_rescaled weights w :
  (1e-6 <? abs (sum_values weights - 100)) = true ->
  (sum_values weights =? 0) = false ->
  normalize weights w =
  (Return (ODict.map_values (fun v => v / sum_values weights * 100) weights),
   emit (Print [Lit "Weights sum to "; Num (sum_values weights);
                Lit ", but must sum to 100. Normalizing proportionally."]) w).
Proof. unfold normalize. intros -> Hnz. simpl. by rewrite Hnz. Qed.

Lemma forallb_triples (P : nat -> nat -> nat -> bool) (l : list nat) :
  forallb (fun a => forallb (fun m => forallb (P a m) l) l) l = true ->
  forall a m f, In a l -> In m l -> In f l -> P a m f = true.
Proof.
  intros Hall a m f Ha Hm Hf.
  rewrite forallb_forall in Hall. specialize (Hall a Ha).
  rewrite forallb_forall in Hall. specialize (Hall m Hm).
  rewrite forallb_forall in Hall. by apply Hall.
Qed.

(** All 101 * 101 * 101 triples of whole percents, by evaluation. *)
Lemma rescale_check_true a m f :
  (a <= 100)%nat -> (m <= 100)%nat -> (f <= 100)%nat -> rescale_check a m f = true.
Proof.
  intros Ha Hm Hf.
  apply (forallb_triples rescale_check (seq 0 101));
    [vm_compute; reflexivity|apply in_seq; lia..].
Qed.

(** The shape of the normalization step: for a weight mapping with a
    positive total, it returns the mapping unchanged when the total is
    within 1e-6 of 100; when the total differs from 100 by more than 1e-6
    it prints a notice and returns the mapping with the same keys in the
    same order and every value [v] replaced by [(v / total) * 100].  For
    weights that are whole numbers of percent from 0 to 100 the new values
    sum to 100 within 1e-6. *)
Theorem normalize_spec weights w :
  (0 <? sum_values weights) = true ->
  let total := sum_values weights in
  (near_100 total = true -> normalize weights w = (Return weights, w)) /\
  ((1e-6 <? abs (total - 100)) = true ->
   exists out,
     normalize weights w =
       (Return out,
        emit (Print [Lit "Weights sum to "; Num total;
                     Lit ", but must sum to 100. Normalizing proportionally."]) w) /\
     ODict.keys out = ODict.keys weights /\
     ODict.values out = (fun v => v / total * 100) <$> ODict.values weights /\
     (whole_percents weights -> near_100 (sum_values out) = true)).
Proof.
  intros Hpos total. split; [apply normalize_unchanged|].
  intros Hfar. pose proof (ltb_zero_not_eqb _ Hpos) as Hnz.
  exists (ODict.map_values (fun v => v / total * 100) weights).
  split; [by apply normalize_rescaled|].
  split; [apply keys_map_values|].
  split; [apply values_map_values|].
  intros (a & m & f & Ha & Hm & Hf & Hw).
  pose proof (rescale_check_true a m f Ha Hm Hf) as Hcheck.
  unfold rescale_check in Hcheck. rewrite <- Hw in Hcheck.
  fold total in Hfar, Hnz, Hcheck. by rewrite Hfar, Hnz in Hcheck.
Qed.

(** C4: when the weights sum to exactly 0 the normalization step raises
    the all-zero-weights error, after its notice, and returns no mapping. *)
Theorem normalize_zero_total weights w :
  (sum_values weights =? 0) = true ->
  normalize weights w =
  (Raise (ValueError [Lit "All weights are zero; can't normalize."]),
   emit (Print [Lit "Weights sum to "; Num (sum_values weights);
                Lit ", but must sum to 100. Normalizing proportionally."]) w).
Proof.
  intros Hzero. unfold normalize. rewrite Hzero.
  by destruct (eqb_zero_cases _ Hzero) as [-> | ->].
Qed.

End Weights.

Section Weights_examples.

Import Ascii_builtins.

Lemma normalize_spec_witness :
  exists out w',
    normalize [("assignment"%string, 50); ("midterm"%string, 50); ("final"%string, 50)]
      (start [] ∅) = (Return out, w') /\
    near_100 (sum_values out) = true.
Proof.
  destruct (normalize_spec
              [("assignment"%string, 50); ("midterm"%string, 50); ("final"%string, 50)]
              (start [] ∅) eq_refl) as [_ Hfar].
  destruct (Hfar eq_refl) as (out & Hrun & _ & _ & Hsum).
  exists out. eexists. split; [exact Hrun|].
  apply Hsum. exists 50%nat, 50%nat, 50%nat. repeat split; lia.
Defined.

(** C1: the claim (and the docstring of [prompt_weights], "Return weights
    dict summing to 100") is broken by the code when the total overflows.
    Typing the weights 1e308, 1e308 and 0 gives three numbers that are not
    below 0; their total is infinity, whether [sum] adds plainly or with
    compensation: a positive total, not within 1e-6 of 100.  The step
    divides every value by it, so [prompt_weights] returns the weights 0,
    0 and 0, which sum to 0 and not to 100. *)
Theorem normalize_overflow_bug :
  let typed := ["y"; "1e308"; "1e308"; "0"]%string in
  let weights :=
    [("assignment"%string, 1e308); ("midterm"%string, 1e308); ("final"%string, 0)] in
  let zeros :=
    [("assignment"%string, 0); ("midterm"%string, 0); ("final"%string, 0)] in
  py_float "1e308" = Some 1e308 /\
  py_float "0" = Some 0 /\
  sum_values weights = infinity /\
  sum_compensated (ODict.values weights) = infinity /\
  (0 <? infinity) = true /\
  near_100 infinity = false /\
  (prompt_weights DEFAULT_WEIGHTS (start typed ∅)).1 = Return zeros /\
  (normalize weights (start [] ∅)).1 = Return zeros /\
  sum_values zeros = 0 /\
  sum_compensated (ODict.values zeros) = 0 /\
  near_100 0 = false.
Proof. repeat split; vm_compute; reflexivity. Qed.

Lemma normalize_zero_total_witness :
  (normalize [("assignment"%string, 0); ("midterm"%string, 0); ("final"%string, 0)]
     (start [] ∅)).1 =
  Raise (ValueError [Lit "All weights are zero; can't normalize."]).
Proof.
  by rewrite (normalize_zero_total
                [("assignment"%string, 0); ("midterm"%string, 0); ("final"%string, 0)]
                (start [] ∅) eq_refl).
Defined.

End Weights_examples.

(** * CSV mode *)

Section Csv.

Context `{Builtins}.

Lemma check_fields_first_missing fieldnames required w :
  for_each required (check_field fieldnames) () w =
  match first_missing fieldnames required with
  | Some field =>
      (Raise (ValueError [Lit "CSV is missing required column: "; Lit field]), w)
  | None => (Return (), w)
  end.
Proof.
  unfold first_missing. induction required as [|field required IH]; simpl; [done|].
  unfold mbind, io_bind, check_field.
  destruct (bool_decide (field ∈ fieldnames)); simpl; [apply IH|done].
Qed.

Lemma first_missing_Some fieldnames required missing :
  missing ∈ required -> missing ∉ fieldnames ->
  exists field, first_missing fieldnames required = Some field /\ field ∉ fieldnames.
Proof.
  intros Hin Hnot. unfold first_missing.
  destruct (find _ required) as [field|] eqn:Hfind.
  - exists field. split; [done|].
    apply find_some in Hfind as [_ Hdec].
    apply negb_true_iff, bool_decide_eq_false in Hdec. done.
  - exfalso. apply list_elem_of_In in Hin.
    pose proof (find_none _ _ Hfind missing Hin) as Hdec. simpl in Hdec.
    apply negb_false_iff, bool_decide_eq_true in Hdec. done.
Qed.

Lemma csv_mode_missing path weights w fieldnames rows field :
  files w !! path = Some (fieldnames :: rows) ->
  first_missing fieldnames ("name"%string :: ODict.keys weights) = Some field ->
  csv_mode path weights w =
  (Return (),
   emit (Print [Lit "Error processing CSV:"; Lit " ";
                Lit "CSV is missing required column: "; Lit field]) w).
Proof.
  intros Hfile Hmissing.
  unfold csv_mode, try_except, parse_csv, open, mbind, io_bind.
  unfold csv_records in *. rewrite Hfile.
  pose proof (check_fields_first_missing fieldnames
                ("name"%string :: ODict.keys weights) w) as Hcheck.
  rewrite Hmissing in Hcheck.
  unfold mbind, io_bind in Hcheck |- *. by rewrite Hcheck.
Qed.

(** C5: when the header of the CSV file lacks "name" or a configured
    component, CSV mode prints one line, the error naming the first
    missing field in the order "name", then the components in weight
    order, and nothing else: no student line, whatever the rows hold. *)
Theorem csv_missing_column path weights w fieldnames rows missing :
  files w !! path = Some (fieldnames :: rows) ->
  missing ∈ ("name"%string :: ODict.keys weights) ->
  missing ∉ fieldnames ->
  exists field,
    first_missing fieldnames ("name"%string :: ODict.keys weights) = Some field /\
    (field ∉ fieldnames) /\
    csv_mode path weights w =
    (Return (),
     emit (Print [Lit "Error processing CSV:"; Lit " ";
                  Lit "CSV is missing required column: "; Lit field]) w).
Proof.
  intros Hfile Hin Hnot.
  destruct (first_missing_Some fieldnames _ missing Hin Hnot) as (field & Hfirst & Hlacks).
  exists field. split; [done|]. split; [done|].
  by apply (csv_mode_missing path weights w fieldnames rows).
Qed.

End Csv.

(** * How actions end *)

Section Endings.

Context `{Builtins}.

Lemma ends_well_ret {A} P (a : A) : ends_well P (mret a).
Proof. intros w r w' [= <- <-]. by split. Qed.

Lemma ends_well_bind {A B} P (m : io A) (k : A -> io B) :
  ends_well P m -> (forall a, ends_well P (k a)) -> ends_well P (m ≫= k).
Proof.
  intros Hm Hk w r w2 Hrun.
  destruct (bind_inv m k w r w2 Hrun)
    as [(a & w1 & Hm1 & Hk1)|[(e & Hm1 & ->)|[Hm1 ->]]].
  - destruct (Hm _ _ _ Hm1) as [Hlen1 _], (Hk a _ _ _ Hk1) as [Hlen2 Hr].
    split; [lia|done].
  - apply (Hm _ _ _ Hm1).
  - apply (Hm _ _ _ Hm1).
Qed.

Lemma ends_well_fmap {A B} P (f : A -> B) (m : io A) :
  ends_well P m -> ends_well P (f <$> m).
Proof. intros Hm. apply ends_well_bind; [done|]. intros a. apply ends_well_ret. Qed.

Lemma ends_well_print P l : ends_well P (print l).
Proof. intros w r w' [= <- <-]. by split. Qed.

Lemma ends_well_raise {A} (P : exn -> Prop) e : P e -> ends_well P (@raise A e).
Proof. intros He w r w' [= <- <-]. by split. Qed.

Lemma ends_well_input (P : exn -> Prop) prompt :
  P EOFError -> ends_well P (input prompt).
Proof.
  intros HP w r w'. unfold input.
  destruct (stdin w) as [|s rest] eqn:Hin; intros [= <- <-]; simpl;
    rewrite ?Hin; simpl; (split; [lia|done]).
Qed.

Lemma ends_well_input_until {A} (P : exn -> Prop) prompt
    (body : string -> option A) complaint :
  P EOFError -> ends_well P (input_until prompt body complaint).
Proof.
  intros HP w r w'. unfold input_until.
  destruct (input_until_from _ _ _ _ _) as [r0 [inp out]] eqn:Hloop.
  intros [= <- <-]. simpl.
  destruct (input_until_from_outcome _ _ _ _ _ _ _ _ Hloop) as [Hlen Hr].
  split; [done|]. destruct r0; [done|by subst|done].
Qed.

Lemma ends_well_for_each {A S} P (xs : list A) (body : A -> S -> io S) s :
  (forall x s', ends_well P (body x s')) -> ends_well P (for_each xs body s).
Proof.
  intros Hbody. revert s. induction xs as [|x xs IH]; intros s; simpl.
  - apply ends_well_ret.
  - apply ends_well_bind; [apply Hbody|apply IH].
Qed.

Lemma ends_well_read_scores components :
  ends_well (fun e => e = EOFError) (read_scores components).
Proof.
  apply ends_well_for_each. intros comp scores.
  apply ends_well_bind; [by apply ends_well_input_until|].
  intros score. apply ends_well_ret.
Qed.

Lemma ends_well_report P lead name scores weights :
  ends_well P (report lead name scores weights).
Proof. apply ends_well_print. Qed.

(** A line read is a line less to come. *)
Lemma input_Return prompt w s w' :
  input prompt w = (Return s, w') ->
  stdin w = s :: stdin w' /\ stdout w' = stdout w ++ [Prompt prompt] /\
  files w' = files w.
Proof.
  unfold input. destruct (stdin w) as [|s0 rest]; [done|].
  by intros [= <- <-].
Qed.

(** With more fuel than pending lines, the loop over students ends well. *)
Lemma until_q_ends_well fuel components weights w r w' :
  (length (stdin w) < fuel)%nat ->
  until_q fuel components weights w = (r, w') ->
  (length (stdin w') <= length (stdin w))%nat /\
  match r with Return _ => True | Raise e => e = EOFError | OutOfFuel => False end.
Proof.
  revert w. induction fuel as [|fuel IH]; intros w Hfuel; [lia|].
  simpl. intros Hrun.
  apply bind_inv in Hrun as [(name & w1 & Hname & Hrest)|[(e & Hname & ->)|[Hname ->]]].
  - apply bind_inv in Hname
      as [(s & w0 & Hin & [= <- <-])|[(e & Hin & [=])|[Hin [=]]]].
    apply input_Return in Hin as (Hs & _ & _).
    destruct (String.eqb (str_lower (str_strip s)) "q").
    + injection Hrest as <- <-. rewrite Hs. simpl. split; [lia|done].
    + apply bind_inv in Hrest
        as [(scores & w2 & Hscores & Hrest)|[(e & Hscores & ->)|[Hscores ->]]].
      * destruct (ends_well_read_scores _ _ _ _ Hscores) as [Hlen2 _].
        apply bind_inv in Hrest
          as [([] & w3 & [= <-] & Hrest)|[(e & [=] & _)|[[=] _]]].
        rewrite Hs in Hfuel |- *. simpl in *.
        destruct (IH (emit _ w2) ltac:(simpl; lia) Hrest) as [Hlen3 Hr].
        simpl in Hlen3. split; [lia|done].
      * destruct (ends_well_read_scores _ _ _ _ Hscores) as [Hlen2 He].
        rewrite Hs. simpl. split; [lia|done].
      * by destruct (ends_well_read_scores _ _ _ _ Hscores).
  - destruct (ends_well_fmap (fun e => e = EOFError) str_strip _
                (ends_well_input _ _ eq_refl) _ _ _ Hname).
    by split.
  - by destruct (ends_well_fmap (fun e => e = EOFError) str_strip _
                   (ends_well_input _ _ eq_refl) _ _ _ Hname).
Qed.

(** Interactive mode ends by returning or at the end of the input. *)
Lemma ends_well_interactive_mode weights :
  ends_well (fun e => e = EOFError) (interactive_mode weights).
Proof.
  unfold interactive_mode.
  apply ends_well_bind; [by apply ends_well_fmap, ends_well_input|].
  intros n. destruct (String.eqb n "").
  - apply ends_well_bind; [apply ends_well_print|]. intros _.
    intros w r w' Hrun.
    apply bind_inv in Hrun as [(k & w1 & [= <- <-] & Hrun)|[(e & [=] & _)|[[=] _]]].
    eapply until_q_ends_well; [|exact Hrun]. lia.
  - destruct (int_of_str n) as [count|]; [|apply ends_well_print].
    apply ends_well_for_each. intros i [].
    apply ends_well_bind; [by apply ends_well_fmap, ends_well_input|].
    intros name. apply ends_well_bind; [apply ends_well_read_scores|].
    intros scores. apply ends_well_report.
Qed.

Lemma ends_well_normalize weights :
  ends_well (fun e => is_Exception e = true) (normalize weights).
Proof.
  unfold normalize. destruct (1e-6 <? _); [|apply ends_well_ret].
  apply ends_well_bind; [apply ends_well_print|]. intros _.
  destruct (_ =? 0); [by apply ends_well_raise|apply ends_well_ret].
Qed.

(** Weight configuration ends by returning or by an exception that
    [except Exception] catches. *)
Lemma ends_well_prompt_weights defaults :
  ends_well (fun e => is_Exception e = true) (prompt_weights defaults).
Proof.
  unfold prompt_weights.
  apply ends_well_bind; [apply ends_well_print|]. intros _.
  apply ends_well_bind.
  { apply ends_well_for_each. intros kv []. apply ends_well_print. }
  intros _. apply ends_well_bind; [by apply ends_well_input|].
  intros ans. destruct (negb _); [apply ends_well_ret|].
  apply ends_well_bind; [|apply ends_well_normalize].
  apply ends_well_for_each. intros kv weights.
  apply ends_well_bind; [by apply ends_well_input_until|].
  intros x. apply ends_well_ret.
Qed.

End Endings.

(** * Interactive mode *)

Section Interactive.

Context `{Builtins}.

Lemma for_each_invariant {A S} (P : S -> Prop) (xs : list A)
    (body : A -> S -> io S) s w s' w' :
  P s ->
  (forall x s1 w1 s2 w2, P s1 -> body x s1 w1 = (Return s2, w2) -> P s2) ->
  for_each xs body s w = (Return s', w') -> P s'.
Proof.
  intros Hs Hbody. revert s w Hs.
  induction xs as [|x xs IH]; intros s w Hs; simpl.
  - by intros [= <- <-].
  - intros Hrun.
    apply bind_inv in Hrun as [(s1 & w1 & Hx & Hrest)|[(e & _ & [=])|[_ [=]]]].
    apply (IH s1 w1); [|done]. by apply (Hbody x s w s1 w1).
Qed.

(** What the score loop accepts is a number from 0 to 100. *)
Lemma score_entry_Some s score :
  score_entry s = Some score ->
  float_of_str (str_strip s) = Some score /\
  (0 <=? score) = true /\ (score <=? 100) = true.
Proof.
  unfold score_entry. destruct (float_of_str (str_strip s)) as [x|]; [|done].
  simpl. destruct (0 <=? x) eqn:H0, (x <=? 100) eqn:H100; simpl; try done.
  by intros [= <-].
Qed.

Lemma ask_score_Return comp scores w scores' w' :
  ask_score comp scores w = (Return scores', w') ->
  exists s score, score_entry s = Some score /\ scores' = <[comp := score]> scores.
Proof.
  unfold ask_score. intros Hrun.
  apply bind_inv in Hrun as [(score & w1 & Hloop & [= <- <-])|[(e & _ & [=])|[_ [=]]]].
  unfold input_until in Hloop.
  destruct (input_until_from _ _ _ _ _) as [r [inp out]] eqn:Hfrom.
  injection Hloop as -> _.
  destruct (input_until_from_Return _ _ _ _ _ _ _ Hfrom) as (s & _ & Hs).
  by exists s, score.
Qed.

(** The score loop asks again after every rejected line. *)
Lemma ask_score_skips comp scores w rejected s score rest :
  stdin w = rejected ++ s :: rest ->
  Forall (fun r => score_entry r = None) rejected ->
  score_entry s = Some score ->
  ask_score comp scores w =
  (Return (<[comp := score]> scores),
   {| stdin := rest;
      stdout := stdout w
                ++ (rejected ≫= fun _ => [Prompt (score_prompt comp);
                                          Print score_complaint])
                ++ [Prompt (score_prompt comp)];
      files := files w |}).
Proof.
  intros Hin Hrej Hs. unfold ask_score, input_until, mbind at 1, io_bind.
  rewrite Hin.
  by rewrite (input_until_from_skips _ _ _ rejected s score rest _ Hrej Hs).
Qed.

Lemma read_scores_in_range components w scores w' :
  read_scores components w = (Return scores, w') ->
  forall comp score, scores !! comp = Some score ->
    (0 <=? score) = true /\ (score <=? 100) = true.
Proof.
  unfold read_scores.
  apply (for_each_invariant
           (fun scores : gmap string float => forall comp score,
              scores !! comp = Some score ->
              (0 <=? score) = true /\ (score <=? 100) = true)).
  - intros comp score. by rewrite lookup_empty.
  - intros x s1 w1 s2 w2 Hs1 Hask comp score.
    apply ask_score_Return in Hask as (s & score' & Hentry & ->).
    destruct (decide (x = comp)) as [->|Hne].
    + rewrite lookup_insert_eq. intros [= <-].
      by apply score_entry_Some in Hentry as (_ & ? & ?).
    + rewrite lookup_insert_ne by done. apply Hs1.
Qed.

(** Whether the program goes on to interactive mode. *)
Lemma main_interactive args w0 weights w :
  prompt_weights DEFAULT_WEIGHTS w0 = (Return weights, w) ->
  csv args = None ->
  main args w0 = interactive_mode weights w.
Proof.
  intros Hweights Hcsv. unfold main, try_except, mbind at 1, io_bind.
  by rewrite Hweights, Hcsv.
Qed.

Lemma interactive_mode_count weights w n rest :
  stdin w = n :: rest ->
  str_strip n ≠ ""%string ->
  interactive_mode weights w =
  match int_of_str (str_strip n) with
  | None => print [Lit "Invalid number, aborting."]
  | Some count =>
      for_each (seqZ 0 count) (numbered_student (ODict.keys weights) weights) ()
  end {| stdin := rest; stdout := stdout w ++ [Prompt how_many_prompt];
         files := files w |}.
Proof.
  intros Hin Hblank. apply String.eqb_neq in Hblank.
  unfold interactive_mode, mbind at 1, io_bind, fmap, io_fmap, mbind, io_bind, input.
  rewrite Hin. simpl. by rewrite Hblank.
Qed.

(** C8: in interactive mode, a count that is not blank and that [int]
    cannot parse makes the run stop with the message "Invalid number,
    aborting." right after the count was read: no student is asked for,
    no further line of input is taken, and the process ends with status
    0. *)
Theorem invalid_count_aborts args w0 weights w n rest :
  prompt_weights DEFAULT_WEIGHTS w0 = (Return weights, w) ->
  csv args = None ->
  stdin w = n :: rest ->
  str_strip n ≠ ""%string ->
  int_of_str (str_strip n) = None ->
  let w' := {| stdin := rest;
               stdout := stdout w ++ [Prompt how_many_prompt;
                                      Print [Lit "Invalid number, aborting."]];
               files := files w |} in
  interactive_mode weights w = (Return (), w') /\
  main args w0 = (Return (), w') /\
  exit_status (main args w0).1 = 0%Z.
Proof.
  intros Hweights Hcsv Hin Hblank Hint w'.
  assert (interactive_mode weights w = (Return (), w')) as Hrun.
  { rewrite (interactive_mode_count weights w n rest Hin Hblank), Hint.
    unfold print, emit, w'. simpl. by rewrite <- app_assoc. }
  rewrite (main_interactive args w0 weights w Hweights Hcsv), Hrun. done.
Qed.

(** C10: in interactive mode, a count that parses as an integer that is
    zero or negative is accepted: no student is asked for, nothing is
    printed after the prompt for the count, and the run returns normally,
    with status 0. *)
Theorem nonpositive_count_collects_nothing args w0 weights w n rest count :
  prompt_weights DEFAULT_WEIGHTS w0 = (Return weights, w) ->
  csv args = None ->
  stdin w = n :: rest ->
  str_strip n ≠ ""%string ->
  int_of_str (str_strip n) = Some count ->
  (count <= 0)%Z ->
  let w' := {| stdin := rest; stdout := stdout w ++ [Prompt how_many_prompt];
               files := files w |} in
  interactive_mode weights w = (Return (), w') /\
  main args w0 = (Return (), w') /\
  exit_status (main args w0).1 = 0%Z.
Proof.
  intros Hweights Hcsv Hin Hblank Hint Hcount w'.
  assert (interactive_mode weights w = (Return (), w')) as Hrun.
  { rewrite (interactive_mode_count weights w n rest Hin Hblank), Hint.
    by rewrite seqZ_nil. }
  rewrite (main_interactive args w0 weights w Hweights Hcsv), Hrun. done.
Qed.

End Interactive.

(** * CSV rows and the exit status *)

Section Csv_rows.

Context `{Builtins}.

Lemma float_of_cell_inr cell x :
  float_of_cell cell = inr x ->
  exists s, cell = Some s /\ float_of_str s = Some x.
Proof.
  unfold float_of_cell. destruct cell as [s|]; [|done].
  destruct (float_of_str s) as [y|] eqn:Hs; [|done].
  intros [= <-]. by exists s.
Qed.

Lemma float_of_cell_inl cell e : float_of_cell cell = inl e -> is_Exception e = true.
Proof.
  unfold float_of_cell. destruct cell as [s|]; [|by intros [= <-]].
  destruct (float_of_str s); [done|by intros [= <-]].
Qed.

(** The scores of a row are the cells as [float] reads them: each
    component gets the number parsed from its cell, whatever its size. *)
Lemma scores_of_row_inr row components acc scores :
  scores_of_row row components acc = inr scores ->
  forall comp,
    (comp ∈ components ->
     exists cell, row !! comp = Some (Some cell) /\
       float_of_str cell = scores !! comp /\ is_Some (scores !! comp)) /\
    (comp ∉ components -> scores !! comp = acc !! comp).
Proof.
  revert acc. induction components as [|c components IH]; intros acc; simpl.
  - intros [= <-] comp. split; [by intros ?%elem_of_nil|done].
  - destruct (float_of_cell (default None (row !! c))) as [e|x] eqn:Hcell; [done|].
    intros Hrest comp. destruct (IH _ Hrest comp) as [Hin Hout].
    apply float_of_cell_inr in Hcell as (cell & Hlook & Hparse).
    destruct (decide (comp ∈ components)) as [Hcomp|Hcomp].
    + split; [intros _; by apply Hin|].
      intros Hnot. exfalso. apply Hnot. by right.
    + split.
      * intros [->|?]%elem_of_cons; [|done].
        exists cell. rewrite (Hout Hcomp), lookup_insert_eq.
        destruct (row !! c) as [[s|]|]; simpl in Hlook; try done.
        injection Hlook as ->. by split; [|split; [|eexists]].
      * intros Hnot. rewrite (Hout Hcomp).
        apply lookup_insert_ne. intros ->. apply Hnot. by left.
Qed.

Lemma scores_of_row_inl row components acc e :
  scores_of_row row components acc = inl e -> is_Exception e = true.
Proof.
  revert acc. induction components as [|c components IH]; intros acc; simpl; [done|].
  destruct (float_of_cell _) as [e'|x] eqn:Hcell; [|apply IH].
  intros [= <-]. by apply float_of_cell_inl in Hcell.
Qed.

Lemma parse_row_inl components fieldnames record e :
  parse_row components fieldnames record = inl e -> is_Exception e = true.
Proof.
  unfold parse_row.
  destruct (scores_of_row _ _ _) as [e'|scores] eqn:Hscores; [|done].
  intros [= <-]. by apply scores_of_row_inl in Hscores.
Qed.

(** The loop over the rows ends by returning or with the exception of the
    first row that cannot be parsed. *)
Lemma report_rows_outcome weights items w r w' :
  Forall (fun item => forall e, item = inl e -> is_Exception e = true) items ->
  for_each items (report_row weights) () w = (r, w') ->
  stdin w' = stdin w /\
  match r with
  | Return _ => True
  | Raise e => is_Exception e = true
  | OutOfFuel => False
  end.
Proof.
  intros Hitems. revert w.
  induction Hitems as [|item items Hitem _ IH]; intros w; simpl.
  - by intros [= <- <-].
  - intros Hrun.
    apply bind_inv in Hrun as [([] & w1 & Hfirst & Hrest)|[(e & Hfirst & ->)|[Hfirst ->]]].
    + destruct (IH _ Hrest) as [Hlen Hr]. split; [|done].
      rewrite Hlen. destruct item as [e|[name scores]]; [done|].
      by injection Hfirst as <-.
    + destruct item as [e'|[name scores]]; [|done].
      injection Hfirst as <- <-. split; [done|by apply Hitem].
    + by destruct item as [e'|[name scores]].
Qed.

Lemma parse_csv_outcome path components w r w' :
  parse_csv path components w = (r, w') ->
  w' = w /\
  match r with
  | Return items =>
      Forall (fun item => forall e, item = inl e -> is_Exception e = true) items
  | Raise e => is_Exception e = true
  | OutOfFuel => False
  end.
Proof.
  unfold parse_csv, open, mbind at 1, io_bind.
  destruct (files w !! path) as [[|fieldnames rows]|]; try by intros [= <- <-].
  unfold mbind, io_bind.
  rewrite (check_fields_first_missing fieldnames ("name"%string :: components) w).
  destruct (first_missing _ _); intros [= <- <-]; split; try done.
  apply Forall_fmap, Forall_forall. intros record _ e. apply parse_row_inl.
Qed.

(** The body of the [try] of CSV mode. *)
Lemma csv_body_outcome path weights w r w' :
  (parse_csv path (ODict.keys weights) ≫= fun items =>
     for_each items (report_row weights) ()) w = (r, w') ->
  stdin w' = stdin w /\
  match r with
  | Return _ => True
  | Raise e => is_Exception e = true
  | OutOfFuel => False
  end.
Proof.
  intros Hrun.
  apply bind_inv in Hrun as [(items & w1 & Hparse & Hrows)|[(e & Hparse & ->)|[Hparse ->]]].
  - apply parse_csv_outcome in Hparse as [-> Hitems].
    by apply (report_rows_outcome weights items w).
  - by apply parse_csv_outcome in Hparse as [-> He].
  - by apply parse_csv_outcome in Hparse as [_ []].
Qed.

(** CSV mode catches whatever its body raises, prints it and returns. *)
Lemma csv_mode_caught path weights w e w1 :
  (parse_csv path (ODict.keys weights) ≫= fun items =>
     for_each items (report_row weights) ()) w = (Raise e, w1) ->
  csv_mode path weights w =
  (Return (), emit (Print ([Lit "Error processing CSV:"; Lit " "] ++ str_of_exn e)) w1).
Proof.
  intros Hrun. destruct (csv_body_outcome _ _ _ _ _ Hrun) as [_ He].
  unfold csv_mode, try_except. by rewrite Hrun, He.
Qed.

Lemma csv_mode_returns path weights w :
  exists w', csv_mode path weights w = (Return (), w').
Proof.
  unfold csv_mode, try_except.
  destruct ((parse_csv path (ODict.keys weights) ≫= _) w) as [r w1] eqn:Hrun.
  destruct (csv_body_outcome _ _ _ _ _ Hrun) as [_ Hr].
  destruct r as [[]|e|]; [by eexists|rewrite Hr; by eexists|done].
Qed.

Lemma main_weights_failed args w e w1 :
  prompt_weights DEFAULT_WEIGHTS w = (Raise e, w1) ->
  main args w =
  (Raise (SystemExit 1),
   emit (Print ([Lit "Error with weights:"; Lit " "] ++ str_of_exn e)) w1).
Proof.
  intros Hweights.
  destruct (ends_well_prompt_weights _ _ _ _ Hweights) as [_ He].
  unfold main, try_except, mbind at 1, io_bind. by rewrite Hweights, He.
Qed.

Lemma main_csv args w weights w1 path :
  prompt_weights DEFAULT_WEIGHTS w = (Return weights, w1) ->
  csv args = Some path -> path ≠ ""%string ->
  main args w = csv_mode path weights w1.
Proof.
  intros Hweights Hcsv Hpath. apply String.eqb_neq in Hpath.
  unfold main, try_except, mbind at 1, io_bind.
  by rewrite Hweights, Hcsv, Hpath.
Qed.

Lemma main_no_path args w weights w1 :
  prompt_weights DEFAULT_WEIGHTS w = (Return weights, w1) ->
  csv args = None \/ csv args = Some ""%string ->
  main args w = interactive_mode weights w1.
Proof.
  intros Hweights Hcsv.
  unfold main, try_except, mbind at 1, io_bind. rewrite Hweights.
  by destruct Hcsv as [-> | ->].
Qed.

(** After the command line is parsed: a failure of the weight
    configuration ends the process with status 1, after the message
    "Error with weights: ...".  With the weights configured and a CSV
    path given, the status is always 0: every exception raised while the
    CSV file is processed is caught and printed after "Error processing
    CSV:".  Any other non-zero status comes from interactive mode reaching
    the end of the input, which raises an [EOFError] that nothing
    catches. *)
Theorem exit_status_spec args w :
  (forall e w1,
     prompt_weights DEFAULT_WEIGHTS w = (Raise e, w1) ->
     main args w =
       (Raise (SystemExit 1),
        emit (Print ([Lit "Error with weights:"; Lit " "] ++ str_of_exn e)) w1) /\
     exit_status (main args w).1 = 1%Z) /\
  (forall weights w1 path,
     prompt_weights DEFAULT_WEIGHTS w = (Return weights, w1) ->
     csv args = Some path -> path ≠ ""%string ->
     main args w = csv_mode path weights w1 /\
     exit_status (main args w).1 = 0%Z /\
     forall e w2,
       (parse_csv path (ODict.keys weights) ≫= fun items =>
          for_each items (report_row weights) ()) w1 = (Raise e, w2) ->
       main args w =
         (Return (),
          emit (Print ([Lit "Error processing CSV:"; Lit " "] ++ str_of_exn e)) w2)) /\
  (exit_status (main args w).1 ≠ 0%Z ->
   (exists e w1, prompt_weights DEFAULT_WEIGHTS w = (Raise e, w1)) \/
   ((csv args = None \/ csv args = Some ""%string) /\
    (main args w).1 = Raise EOFError)).
Proof.
  split; [|split].
  - intros e w1 Hweights. by rewrite (main_weights_failed args w e w1 Hweights).
  - intros weights w1 path Hweights Hcsv Hpath.
    rewrite (main_csv args w weights w1 path Hweights Hcsv Hpath).
    split; [done|]. split.
    + by destruct (csv_mode_returns path weights w1) as [w2 ->].
    + intros e w2. apply csv_mode_caught.
  - intros Hstatus.
    destruct (prompt_weights DEFAULT_WEIGHTS w) as [[weights|e|] w1] eqn:Hweights.
    + right.
      destruct (csv args) as [path|] eqn:Hcsv.
      * destruct (decide (path = ""%string)) as [->|Hpath].
        -- split; [by right|].
           rewrite (main_no_path args w weights w1 Hweights (or_intror Hcsv)) in Hstatus |- *.
           destruct (interactive_mode weights w1) as [r w2] eqn:Hrun.
           destruct (ends_well_interactive_mode _ _ _ _ Hrun) as [_ Hr].
           destruct r as [[]|e|]; [done|by subst|done].
        -- exfalso. apply Hstatus.
           rewrite (main_csv args w weights w1 path Hweights Hcsv Hpath).
           by destruct (csv_mode_returns path weights w1) as [w2 ->].
      * split; [by left|].
        rewrite (main_no_path args w weights w1 Hweights (or_introl Hcsv)) in Hstatus |- *.
        destruct (interactive_mode weights w1) as [r w2] eqn:Hrun.
        destruct (ends_well_interactive_mode _ _ _ _ Hrun) as [_ Hr].
        destruct r as [[]|e|]; [done|by subst|done].
    + left. by exists e, w1.
    + by destruct (ends_well_prompt_weights _ _ _ _ Hweights) as [_ []].
Qed.

End Csv_rows.

(** * The exit status of the script *)

Section Command_line.

Context `{Builtins} `{Argparse}.

Lemma script_rejected argv w out code :
  parse_args argv = inl (out, code) ->
  script argv w =
  (Raise (SystemExit code),
   {| stdin := stdin w; stdout := stdout w ++ out; files := files w |}).
Proof. unfold script. by intros ->. Qed.

Lemma script_accepted argv w args :
  parse_args argv = inr args -> script argv w = main args w.
Proof. unfold script. by intros ->. Qed.

(** C7, amended: weight configuration is not the only source of a
    non-zero status.  A command line that argparse ends itself gives the
    status argparse chose (2 for a rejected command line), before any
    weight is asked for.  For an accepted command line: a failure of the
    weight configuration gives status 1, after "Error with weights: ...";
    with a CSV path given, that is the only non-zero status, since every
    exception raised while the CSV file is processed (a missing column, a
    field that is not a number, a file that cannot be read) is caught and
    printed after "Error processing CSV:" and the status is 0; without a
    CSV path, interactive mode also ends with status 1 when the input
    ends while a line is awaited, by an [EOFError] that nothing
    catches. *)
Theorem script_exit_status argv w :
  (forall out code,
     parse_args argv = inl (out, code) ->
     script argv w =
       (Raise (SystemExit code),
        {| stdin := stdin w; stdout := stdout w ++ out; files := files w |}) /\
     exit_status (script argv w).1 = code) /\
  (forall args,
     parse_args argv = inr args ->
     (forall e w1,
        prompt_weights DEFAULT_WEIGHTS w = (Raise e, w1) ->
        script argv w =
          (Raise (SystemExit 1),
           emit (Print ([Lit "Error with weights:"; Lit " "] ++ str_of_exn e)) w1) /\
        exit_status (script argv w).1 = 1%Z) /\
     (forall weights w1 path,
        prompt_weights DEFAULT_WEIGHTS w = (Return weights, w1) ->
        csv args = Some path -> path ≠ ""%string ->
        script argv w = csv_mode path weights w1 /\
        exit_status (script argv w).1 = 0%Z /\
        forall e w2,
          (parse_csv path (ODict.keys weights) ≫= fun items =>
             for_each items (report_row weights) ()) w1 = (Raise e, w2) ->
          script argv w =
            (Return (),
             emit (Print ([Lit "Error processing CSV:"; Lit " "] ++ str_of_exn e)) w2)) /\
     (exit_status (script argv w).1 ≠ 0%Z ->
      (exists e w1, prompt_weights DEFAULT_WEIGHTS w = (Raise e, w1)) \/
      ((csv args = None \/ csv args = Some ""%string) /\
       (script argv w).1 = Raise EOFError))).
Proof.
  split.
  - intros out code Hparse. by rewrite (script_rejected argv w out code Hparse).
  - intros args Hparse. rewrite (script_accepted argv w args Hparse).
    apply exit_status_spec.
Qed.

End Command_line.

(** * What the score loop and the CSV rows accept *)

Section Score_entry.

Context `{Builtins}.

(** The score loop accepts a line exactly when [float] reads a number
    from 0 to 100 in it (after [strip]), and keeps that number. *)
Lemma score_entry_iff s score :
  score_entry s = Some score <->
  float_of_str (str_strip s) = Some score /\
  (0 <=? score) = true /\ (score <=? 100) = true.
Proof.
  split; [apply score_entry_Some|].
  intros (Hs & H0 & H100). unfold score_entry. rewrite Hs. simpl.
  by rewrite H0, H100.
Qed.

Lemma score_entry_None_iff s :
  score_entry s = None <->
  forall x, float_of_str (str_strip s) = Some x ->
    (0 <=? x) = false \/ (x <=? 100) = false.
Proof.
  unfold score_entry. destruct (float_of_str (str_strip s)) as [y|]; simpl.
  - destruct (0 <=? y) eqn:H0, (y <=? 100) eqn:H100; simpl; split; try done.
    + intros Hall. destruct (Hall y eq_refl); congruence.
    + intros _ x [= <-]. by right.
    + intros _ x [= <-]. by left.
    + intros _ x [= <-]. by left.
  - split; [by intros _ x|done].
Qed.

(** The loop leaves on the input only lines that were on it. *)
Lemma input_until_from_subset {A} prompt (body : string -> option A) complaint
    inp out r inp' out' :
  input_until_from prompt body complaint inp out = (r, (inp', out')) ->
  forall t, t ∈ inp' -> t ∈ inp.
Proof.
  revert out. induction inp as [|s inp IH]; intros out; simpl.
  - by intros [= <- <- <-].
  - destruct (body s).
    + intros [= <- <- <-] t Ht. by right.
    + intros Hrec t Ht. right. by apply (IH _ Hrec).
Qed.

Lemma ask_score_typed comp scores w scores' w' :
  ask_score comp scores w = (Return scores', w') ->
  (exists s score, s ∈ stdin w /\ score_entry s = Some score /\
     scores' = <[comp := score]> scores) /\
  (forall t, t ∈ stdin w' -> t ∈ stdin w).
Proof.
  unfold ask_score. intros Hrun.
  apply bind_inv in Hrun as [(score & w1 & Hloop & [= <- <-])|[(e & _ & [=])|[_ [=]]]].
  unfold input_until in Hloop.
  destruct (input_until_from _ _ _ _ _) as [r [inp out]] eqn:Hfrom.
  injection Hloop as -> <-. simpl.
  destruct (input_until_from_Return _ _ _ _ _ _ _ Hfrom) as (s & Hin & Hs).
  split; [by exists s, score|].
  apply (input_until_from_subset _ _ _ _ _ _ _ _ Hfrom).
Qed.

Lemma read_scores_typed components acc w scores w' :
  for_each components ask_score acc w = (Return scores, w') ->
  (forall comp score, scores !! comp = Some score ->
     acc !! comp = Some score \/
     exists s, s ∈ stdin w /\ score_entry s = Some score) /\
  (forall t, t ∈ stdin w' -> t ∈ stdin w).
Proof.
  revert acc w. induction components as [|c components IH]; intros acc w; simpl.
  - intros [= <- <-]. split; [by left|done].
  - intros Hrun.
    apply bind_inv in Hrun as [(acc' & w1 & Hask & Hrest)|[(e & _ & [=])|[_ [=]]]].
    apply ask_score_typed in Hask as [(s & x & Hs & Hentry & ->) Hsub1].
    destruct (IH _ _ Hrest) as [Hscores Hsub2].
    split; [|by intros t Ht; apply Hsub1, Hsub2].
    intros comp score Hlook.
    destruct (Hscores comp score Hlook) as [Hacc|(s' & Hs' & Hentry')].
    + destruct (decide (c = comp)) as [->|Hne].
      * rewrite lookup_insert_eq in Hacc. injection Hacc as <-.
        right. by exists s.
      * rewrite lookup_insert_ne in Hacc by done. by left.
    + right. exists s'. split; [by apply Hsub1|done].
Qed.

(** A row whose cells all parse is taken as it is, whatever the numbers. *)
Lemma scores_of_row_total row components acc :
  (forall comp, comp ∈ components ->
     exists cell x, row !! comp = Some (Some cell) /\ float_of_str cell = Some x) ->
  exists scores, scores_of_row row components acc = inr scores.
Proof.
  revert acc. induction components as [|c components IH]; intros acc Hcells; simpl.
  - by exists acc.
  - destruct (Hcells c ltac:(left)) as (cell & x & Hlook & Hparse).
    rewrite Hlook. simpl. rewrite Hparse.
    apply IH. intros comp Hin. apply Hcells. by right.
Qed.

End Score_entry.

(** * Runs on concrete input *)

Section Runs.

Import Ascii_builtins.

Local Open Scope string_scope.

(** C6: the interactive score loop accepts a line exactly when [float]
    reads in it a number from 0 to 100, and keeps that number: it asks
    again after every line that is not such a number and takes the first
    one that is, so every score collected interactively is a typed number
    with 0 <= score <= 100.  CSV mode checks no range: a row whose cells
    all parse is taken as it is, its scores are the cells as [float]
    reads them, and a row with scores above 100 gets a weighted
    percentage above 100 and the letter "A". *)
Theorem score_range_asymmetry :
  (forall (B : Builtins) s score,
     score_entry s = Some score <->
     float_of_str (str_strip s) = Some score /\
     (0 <=? score)%float = true /\ (score <=? 100)%float = true) /\
  (forall (B : Builtins) components w scores w',
     read_scores components w = (Return scores, w') ->
     forall comp score, scores !! comp = Some score ->
       (0 <=? score)%float = true /\ (score <=? 100)%float = true /\
       exists s, s ∈ stdin w /\ float_of_str (str_strip s) = Some score) /\
  (forall (B : Builtins) comp scores w rejected s score rest,
     stdin w = (rejected ++ s :: rest)%list ->
     Forall (fun r => forall x, float_of_str (str_strip r) = Some x ->
                (0 <=? x)%float = false \/ (x <=? 100)%float = false) rejected ->
     float_of_str (str_strip s) = Some score ->
     (0 <=? score)%float = true ->
     (score <=? 100)%float = true ->
     ask_score comp scores w =
     (Return (<[comp := score]> scores),
      {| stdin := rest;
         stdout := (stdout w
                    ++ (rejected ≫= fun _ => [Prompt (score_prompt comp);
                                              Print score_complaint])
                    ++ [Prompt (score_prompt comp)])%list;
         files := files w |})) /\
  (forall (B : Builtins) row components scores comp,
     scores_of_row row components ∅ = inr scores ->
     comp ∈ components ->
     exists cell, row !! comp = Some (Some cell) /\
       float_of_str cell = scores !! comp /\ is_Some (scores !! comp)) /\
  (forall (B : Builtins) row components,
     (forall comp, comp ∈ components ->
        exists cell x, row !! comp = Some (Some cell) /\ float_of_str cell = Some x) ->
     exists scores, scores_of_row row components ∅ = inr scores) /\
  (let fs : gmap string csv_records :=
     {[ "grades.csv" := [["name"; "assignment"; "midterm"; "final"];
                         ["Bob"; "150"; "150"; "150"]] ]} in
   csv_mode "grades.csv" DEFAULT_WEIGHTS (start [] fs) =
     (Return (),
      {| stdin := [];
         stdout := [Print [Lit "Bob"; Lit ": "; Fix2 150; Lit "% -> "; Lit "A"]];
         files := fs |}) /\
   (100 <? 150)%float = true).
Proof.
  split; [intros B; apply score_entry_iff|].
  split.
  { intros B components w scores w' Hrun comp score Hlook.
    destruct (read_scores_in_range components w scores w' Hrun comp score Hlook)
      as [H0 H100].
    split; [done|]. split; [done|].
    destruct (read_scores_typed components ∅ w scores w' Hrun) as [Htyped _].
    destruct (Htyped comp score Hlook) as [Hempty|(s & Hs & Hentry)].
    - by rewrite lookup_empty in Hempty.
    - exists s. split; [done|].
      by destruct (proj1 (score_entry_iff s score) Hentry) as (? & _). }
  split.
  { intros B comp scores w rejected s score rest Hin Hrej Hs H0 H100.
    apply (ask_score_skips comp scores w rejected s score rest);
      [done| |by apply (proj2 (score_entry_iff s score))].
    eapply Forall_impl; [exact Hrej|]. intros r Hr.
    by apply (proj2 (score_entry_None_iff r)). }
  split.
  { intros B row components scores comp Hrow Hin.
    by apply (scores_of_row_inr row components ∅ scores Hrow comp). }
  split; [intros B row components; apply scores_of_row_total|].
  split; vm_compute; reflexivity.
Qed.

Lemma score_range_asymmetry_witness :
  (0 <=? 100)%float = true /\ (100 <=? 100)%float = true /\
  exists s, s ∈ ["101"; "abc"; "100"] /\ py_float (py_strip s) = Some 100%float.
Proof.
  destruct score_range_asymmetry as (_ & Hrange & _).
  eapply (Hrange builtins ["final"] (start ["101"; "abc"; "100"] ∅)
            {["final" := 100%float]} _ _ "final" 100%float).
  vm_compute. reflexivity.
  Unshelve. 2: reflexivity.
Defined.

Lemma csv_missing_column_witness :
  exists field,
    first_missing ["name"; "assignment"; "final"]
      ("name" :: ODict.keys DEFAULT_WEIGHTS) = Some field /\
    (field ∉ ["name"; "assignment"; "final"]) /\
    csv_mode "grades.csv" DEFAULT_WEIGHTS
      (start [] {[ "grades.csv" := [["name"; "assignment"; "final"];
                                    ["Alice"; "80"; "90"]] ]}) =
    (Return (),
     emit (Print [Lit "Error processing CSV:"; Lit " ";
                  Lit "CSV is missing required column: "; Lit field])
       (start [] {[ "grades.csv" := [["name"; "assignment"; "final"];
                                     ["Alice"; "80"; "90"]] ]})).
Proof.
  apply (csv_missing_column "grades.csv" DEFAULT_WEIGHTS _
           ["name"; "assignment"; "final"] [["Alice"; "80"; "90"]] "midterm").
  - vm_compute. reflexivity.
  - unfold DEFAULT_WEIGHTS, ODict.keys. simpl. rewrite !elem_of_cons. tauto.
  - rewrite !elem_of_cons, elem_of_nil. intros [?|[?|[?|[]]]]; discriminate.
Defined.

Lemma invalid_count_aborts_witness :
  exit_status (main {| csv := None |} (start [""; "abc"; "1"] ∅)).1 = 0%Z.
Proof.
  edestruct (invalid_count_aborts {| csv := None |} (start [""; "abc"; "1"] ∅))
    as (_ & _ & Hstatus); [| | | | |exact Hstatus].
  - vm_compute. reflexivity.
  - reflexivity.
  - reflexivity.
  - vm_compute. discriminate.
  - vm_compute. reflexivity.
Defined.

Lemma nonpositive_count_collects_nothing_witness :
  exit_status (main {| csv := None |} (start [""; "-2"; "Ann"] ∅)).1 = 0%Z.
Proof.
  edestruct (nonpositive_count_collects_nothing {| csv := None |}
               (start [""; "-2"; "Ann"] ∅))
    as (_ & _ & Hstatus); [| | | | | |exact Hstatus].
  - vm_compute. reflexivity.
  - reflexivity.
  - reflexivity.
  - vm_compute. discriminate.
  - vm_compute. reflexivity.
  - lia.
Defined.

(** C7 as stated fails in interactive mode: with the default weights
    accepted and one student announced, the input ends before the
    student's name; weight configuration has succeeded, yet [input]
    raises [EOFError], nothing catches it, and the status is 1. *)
Lemma eof_exit_counterexample :
  (prompt_weights DEFAULT_WEIGHTS (start [""; "1"] ∅)).1 = Return DEFAULT_WEIGHTS /\
  (main {| csv := None |} (start [""; "1"] ∅)).1 = Raise EOFError /\
  exit_status (main {| csv := None |} (start [""; "1"] ∅)).1 = 1%Z.
Proof. repeat split; vm_compute; reflexivity. Qed.

Lemma exit_status_spec_witness :
  exit_status (main {| csv := Some "missing.csv" |} (start [""] ∅)).1 = 0%Z.
Proof.
  destruct (exit_status_spec {| csv := Some "missing.csv" |} (start [""] ∅))
    as (_ & Hcsv & _).
  edestruct Hcsv as (_ & Hstatus & _); [| | |exact Hstatus].
  - vm_compute. reflexivity.
  - reflexivity.
  - discriminate.
Defined.

End Runs.

(** * Further properties of the grade engine *)

Section Grade_order.

Lemma SFleb_trans (x y z : spec_float) :
  SFleb x y = true -> SFleb y z = true -> SFleb x z = true.
Proof.
  unfold SFleb, SFcompare.
  change PosDef.Pos.compare_cont with Pos.compare_cont.
  destruct x as [sx|sx| |sx mx ex], y as [sy|sy| |sy my ey],
    z as [sz|sz| |sz mz ez]; try done;
    try (destruct sx; done); try (destruct sy; done); try (destruct sz; done);
    try (destruct sx, sy; done); try (destruct sy, sz; done);
    try (destruct sx, sz; done); try (destruct sx, sy, sz; done).
  destruct sx, sy, sz; try done;
    rewrite !Pos.compare_cont_spec; unfold Pos.switch_Eq;
    destruct (Z.compare_spec ex ey), (Z.compare_spec ey ez),
      (Z.compare_spec ex ez); try done; try lia; subst;
    destruct (Pos.compare_spec mx my), (Pos.compare_spec my mz),
      (Pos.compare_spec mx mz); try done; try lia.
Qed.

Lemma leb_trans (x y z : float) :
  (x <=? y) = true -> (y <=? z) = true -> (x <=? z) = true.
Proof. rewrite !leb_spec. apply SFleb_trans. Qed.

Lemma scan_rank_letter scale pct :
  scan_scale scale pct = default "F"%string (snd <$> scale !! scan_rank scale pct).
Proof.
  induction scale as [|[m l] scale IH]; simpl; [done|].
  by destruct (m <=? pct).
Qed.

Lemma scan_rank_monotone scale pct1 pct2 :
  (pct1 <=? pct2) = true -> (scan_rank scale pct2 <= scan_rank scale pct1)%nat.
Proof.
  intros Hle. induction scale as [|[m l] scale IH]; simpl; [lia|].
  destruct (m <=? pct1) eqn:H1.
  - by rewrite (leb_trans m pct1 pct2 H1 Hle).
  - destruct (m <=? pct2); lia.
Qed.

(** X12: the letter of a percentage is the letter at the position where
    the scan stops, and a percentage that is at least another never
    stops later in the table: a higher percentage never gets a lower
    grade. *)
Theorem higher_percentage_no_lower_grade pct1 pct2 :
  (pct1 <=? pct2) = true ->
  percentage_to_letter pct1 =
    default "F"%string (snd <$> GRADE_SCALE !! scan_rank GRADE_SCALE pct1) /\
  percentage_to_letter pct2 =
    default "F"%string (snd <$> GRADE_SCALE !! scan_rank GRADE_SCALE pct2) /\
  (scan_rank GRADE_SCALE pct2 <= scan_rank GRADE_SCALE pct1)%nat.
Proof.
  intros Hle. split; [apply scan_rank_letter|].
  split; [apply scan_rank_letter|by apply scan_rank_monotone].
Qed.

Lemma higher_percentage_no_lower_grade_witness :
  (scan_rank GRADE_SCALE 91.5 <= scan_rank GRADE_SCALE 64.25)%nat.
Proof.
  by destruct (higher_percentage_no_lower_grade 64.25 91.5 eq_refl) as (_ & _ & ?).
Defined.

(** A percentage that meets a threshold meets every lower one. *)
Lemma meets_lower (hi lo pct : float) :
  (lo <=? hi) = true -> (hi <=? pct) = true -> (lo <=? pct) = true.
Proof. apply leb_trans. Qed.

(** X13: the bands of the scale have no gap and no overlap: the letter is
    "A" exactly from 90 up, each letter between exactly from its
    threshold up to the next one, and "F" exactly when 50 is not reached
    (below 50, or not a number). *)
Theorem grade_bands pct :
  (percentage_to_letter pct = "A"%string <-> (90 <=? pct) = true) /\
  (percentage_to_letter pct = "A-"%string <->
     (85 <=? pct) = true /\ (90 <=? pct) = false) /\
  (percentage_to_letter pct = "B+"%string <->
     (80 <=? pct) = true /\ (85 <=? pct) = false) /\
  (percentage_to_letter pct = "B"%string <->
     (75 <=? pct) = true /\ (80 <=? pct) = false) /\
  (percentage_to_letter pct = "B-"%string <->
     (70 <=? pct) = true /\ (75 <=? pct) = false) /\
  (percentage_to_letter pct = "C+"%string <->
     (65 <=? pct) = true /\ (70 <=? pct) = false) /\
  (percentage_to_letter pct = "C"%string <->
     (60 <=? pct) = true /\ (65 <=? pct) = false) /\
  (percentage_to_letter pct = "D"%string <->
     (50 <=? pct) = true /\ (60 <=? pct) = false) /\
  (percentage_to_letter pct = "F"%string <-> (50 <=? pct) = false).
Proof.
  pose proof (meets_lower 90 85 pct eq_refl) as H90.
  pose proof (meets_lower 85 80 pct eq_refl) as H85.
  pose proof (meets_lower 80 75 pct eq_refl) as H80.
  pose proof (meets_lower 75 70 pct eq_refl) as H75.
  pose proof (meets_lower 70 65 pct eq_refl) as H70.
  pose proof (meets_lower 65 60 pct eq_refl) as H65.
  pose proof (meets_lower 60 50 pct eq_refl) as H60.
  unfold percentage_to_letter, GRADE_SCALE, scan_scale.
  destruct (90 <=? pct); [rewrite H90 in * by done|];
  (destruct (85 <=? pct); [rewrite H85 in * by done|]);
  (destruct (80 <=? pct); [rewrite H80 in * by done|]);
  (destruct (75 <=? pct); [rewrite H75 in * by done|]);
  (destruct (70 <=? pct); [rewrite H70 in * by done|]);
  (destruct (65 <=? pct); [rewrite H65 in * by done|]);
  (destruct (60 <=? pct); [rewrite H60 in * by done|]);
  destruct (50 <=? pct); destruct (0 <=? pct); by intuition discriminate.
Qed.

End Grade_order.

(** * Further properties of the weight configuration *)

Section Weight_prompts.

Context `{Builtins}.

Lemma show_defaults_run defaults w :
  for_each defaults show_default () w =
  (Return (),
   {| stdin := stdin w;
      stdout := stdout w
                ++ ((fun kv => Print [Lit "  "; Lit kv.1; Lit ": "; Num kv.2; Lit "%"])
                      <$> defaults);
      files := files w |}).
Proof.
  revert w. induction defaults as [|kv defaults IH]; intros w; simpl.
  - rewrite app_nil_r. by destruct w.
  - unfold mbind, io_bind, show_default at 1, print. rewrite IH. simpl.
    by rewrite <- app_assoc.
Qed.

(** X1: any answer but "y" (after [strip] and [lower]) keeps the defaults:
    [prompt_weights] lists them, asks once, reads that one line and
    returns the defaults unchanged, without normalizing them. *)
Theorem declined_change_keeps_defaults defaults w ans rest :
  stdin w = ans :: rest ->
  str_lower (str_strip ans) ≠ "y"%string ->
  prompt_weights defaults w =
  (Return defaults,
   {| stdin := rest;
      stdout := stdout w ++ defaults_listing defaults ++ [Prompt change_prompt];
      files := files w |}).
Proof.
  intros Hin Hans. apply String.eqb_neq in Hans.
  unfold prompt_weights, mbind, io_bind, print at 1.
  rewrite show_defaults_run. unfold input. simpl. rewrite Hin, Hans. simpl.
  unfold defaults_listing. by rewrite <- !app_assoc.
Qed.

Lemma keys_set_new {V} k (v : V) (d : ODict.t V) :
  k ∉ ODict.keys d -> ODict.keys (ODict.set k v d) = ODict.keys d ++ [k].
Proof.
  unfold ODict.keys. induction d as [|[k' v'] d IH]; csimpl; [done|].
  intros Hnot. apply not_elem_of_cons in Hnot as [Hne Hnot].
  destruct (String.eqb_spec k k') as [->|_]; [done|].
  csimpl. by rewrite IH.
Qed.

Lemma values_set_Forall {V} (P : V -> Prop) k v (d : ODict.t V) :
  P v -> Forall P (ODict.values d) -> Forall P (ODict.values (ODict.set k v d)).
Proof.
  unfold ODict.values. intros Hv. induction d as [|[k' v'] d IH]; csimpl.
  - intros _. by constructor.
  - intros [Hv' Hd]%Forall_cons.
    destruct (String.eqb k k'); csimpl; constructor; auto.
Qed.

(** What the weight loop accepts is not below 0. *)
Lemma weight_entry_Some dflt s x :
  weight_entry dflt s = Some x -> (x <? 0) = false.
Proof.
  unfold weight_entry.
  destruct (if String.eqb (str_strip s) "" then Some dflt
            else float_of_str (str_strip s)) as [y|]; [|done].
  simpl. destruct (y <? 0) eqn:Hy; [done|]. by intros [= <-].
Qed.

Lemma ask_weight_Return kv weights w weights' w' :
  ask_weight kv weights w = (Return weights', w') ->
  exists s x, weight_entry kv.2 s = Some x /\ weights' = ODict.set kv.1 x weights.
Proof.
  unfold ask_weight. intros Hrun.
  apply bind_inv in Hrun as [(x & w1 & Hloop & [= <- <-])|[(e & _ & [=])|[_ [=]]]].
  unfold input_until in Hloop.
  destruct (input_until_from _ _ _ _ _) as [r [inp out]] eqn:Hfrom.
  injection Hloop as -> _.
  destruct (input_until_from_Return _ _ _ _ _ _ _ Hfrom) as (s & _ & Hs).
  by exists s, x.
Qed.

Lemma collected_keys defaults acc w weights w' :
  for_each defaults ask_weight acc w = (Return weights, w') ->
  NoDup (ODict.keys acc ++ ODict.keys defaults) ->
  ODict.keys weights = ODict.keys acc ++ ODict.keys defaults.
Proof.
  revert acc w. induction defaults as [|kv defaults IH]; intros acc w; simpl.
  - intros [= <- <-] _. unfold ODict.keys. by rewrite app_nil_r.
  - intros Hrun Hnodup.
    apply bind_inv in Hrun as [(acc' & w1 & Hask & Hrest)|[(e & _ & [=])|[_ [=]]]].
    apply ask_weight_Return in Hask as (s & x & _ & ->).
    change (ODict.keys (kv :: defaults)) with (kv.1 :: ODict.keys defaults) in *.
    assert (kv.1 ∉ ODict.keys acc) as Hfresh.
    { apply NoDup_app in Hnodup as (_ & Hdisj & _).
      intros Hin. apply (Hdisj _ Hin). left. }
    rewrite (IH _ _ Hrest); rewrite (keys_set_new _ _ _ Hfresh), <- app_assoc; done.
Qed.

Lemma normalize_Return weights w out w' :
  normalize weights w = (Return out, w') ->
  out = weights \/
  out = ODict.map_values (fun v => v / sum_values weights * 100) weights.
Proof.
  unfold normalize. destruct (1e-6 <? _); [|intros [= <- <-]; by left].
  unfold mbind, io_bind, print.
  destruct (_ =? 0); [done|]. intros [= <- <-]. by right.
Qed.

(** X2: the weights [prompt_weights] returns have the components of the
    defaults, in the same order, whatever was typed. *)
Theorem prompt_weights_keeps_components defaults w weights w' :
  NoDup (ODict.keys defaults) ->
  prompt_weights defaults w = (Return weights, w') ->
  ODict.keys weights = ODict.keys defaults.
Proof.
  intros Hnodup. unfold prompt_weights. intros Hrun.
  apply bind_inv in Hrun as [([] & w1 & _ & Hrun)|[(e & _ & [=])|[_ [=]]]].
  apply bind_inv in Hrun as [([] & w2 & _ & Hrun)|[(e & _ & [=])|[_ [=]]]].
  apply bind_inv in Hrun as [(ans & w3 & _ & Hrun)|[(e & _ & [=])|[_ [=]]]].
  destruct (negb _); [by injection Hrun as <- _|].
  apply bind_inv in Hrun as [(d & w4 & Hcollect & Hnorm)|[(e & _ & [=])|[_ [=]]]].
  apply collected_keys in Hcollect; [|done]. simpl in Hcollect.
  apply normalize_Return in Hnorm as [-> | ->]; [done|].
  by rewrite keys_map_values.
Qed.

(** X3: the weight loop never lets a number below 0 through: every weight
    collected at the prompts, typed or taken from a default by a blank
    line, satisfies [not (w < 0)]. *)
Theorem collected_weights_not_negative defaults w weights w' :
  for_each defaults ask_weight [] w = (Return weights, w') ->
  Forall (fun v => (v <? 0) = false) (ODict.values weights).
Proof.
  apply (for_each_invariant
           (fun d : ODict.t float => Forall (fun v => (v <? 0) = false) (ODict.values d))).
  - constructor.
  - intros kv d1 w1 d2 w2 Hd1 Hask.
    apply ask_weight_Return in Hask as (s & x & Hentry & ->).
    apply values_set_Forall; [|done]. by apply weight_entry_Some in Hentry.
Qed.

Lemma add_nan_r (x : float) : x + nan = nan.
Proof.
  rewrite <- (SF2Prim_Prim2SF (x + nan)), add_spec.
  replace (Prim2SF nan) with S754_nan by (vm_compute; reflexivity).
  unfold SF64add, SFadd. by destruct (Prim2SF x).
Qed.

Lemma add_nan_l (x : float) : nan + x = nan.
Proof.
  rewrite <- (SF2Prim_Prim2SF (nan + x)), add_spec.
  replace (Prim2SF nan) with S754_nan by (vm_compute; reflexivity).
  reflexivity.
Qed.

Lemma fold_add_nan (xs : list float) :
  fold_left (fun acc v => acc + v) xs nan = nan.
Proof. induction xs as [|x xs IH]; simpl; [done|]. by rewrite add_nan_l. Qed.

Lemma sum_with_nan (xs : list float) (acc : float) :
  nan ∈ xs -> fold_left (fun acc v => acc + v) xs acc = nan.
Proof.
  revert acc. induction xs as [|x xs IH]; intros acc Hin; simpl.
  - by apply elem_of_nil in Hin.
  - apply elem_of_cons in Hin as [<-|Hin]; [|by apply IH].
    by rewrite add_nan_r, fold_add_nan.
Qed.

(** X4: "nan" is let through as a weight but not as a score.  A line
    that [float] reads as NaN is accepted by the weight loop and
    rejected by the score loop; and once a weight is NaN the total is
    NaN, the test [abs(total - 100) > 1e-6] is false, and the mapping is
    returned as it is, with no notice and no rescaling. *)
Theorem nan_weight_passes_unnormalized :
  (forall dflt s,
     str_strip s ≠ ""%string -> float_of_str (str_strip s) = Some nan ->
     weight_entry dflt s = Some nan) /\
  (forall s, float_of_str (str_strip s) = Some nan -> score_entry s = None) /\
  (forall weights w,
     nan ∈ ODict.values weights ->
     sum_values weights = nan /\ normalize weights w = (Return weights, w)).
Proof.
  split; [|split].
  - intros dflt s Hblank Hnan. apply String.eqb_neq in Hblank.
    unfold weight_entry. by rewrite Hblank, Hnan.
  - intros s Hnan. unfold score_entry. by rewrite Hnan.
  - intros weights w Hin.
    assert (sum_values weights = nan) as Hsum by by apply sum_with_nan.
    split; [done|]. unfold normalize. by rewrite Hsum.
Qed.

Lemma ends_well_normalize_zero weights :
  ends_well (fun e => e = EOFError \/ e = zero_weights_error) (normalize weights).
Proof.
  unfold normalize. destruct (1e-6 <? _); [|apply ends_well_ret].
  apply ends_well_bind; [apply ends_well_print|]. intros _.
  destruct (_ =? 0); [apply ends_well_raise; by right|apply ends_well_ret].
Qed.

(** X5: [prompt_weights] fails in two ways only: the input ends while a
    line is awaited ([EOFError]), or all the weights typed are zero.  It
    always ends, and takes lines off the input only. *)
Theorem prompt_weights_failures defaults w r w' :
  prompt_weights defaults w = (r, w') ->
  (length (stdin w') <= length (stdin w))%nat /\
  match r with
  | Return _ => True
  | Raise e => e = EOFError \/ e = zero_weights_error
  | OutOfFuel => False
  end.
Proof.
  revert w r w'.
  change (ends_well (fun e => e = EOFError \/ e = zero_weights_error)
            (prompt_weights defaults)).
  unfold prompt_weights.
  apply ends_well_bind; [apply ends_well_print|]. intros _.
  apply ends_well_bind.
  { apply ends_well_for_each. intros kv []. apply ends_well_print. }
  intros _. apply ends_well_bind; [apply ends_well_input; by left|].
  intros ans. destruct (negb _); [apply ends_well_ret|].
  apply ends_well_bind; [|apply ends_well_normalize_zero].
  apply ends_well_for_each. intros kv weights.
  apply ends_well_bind; [apply ends_well_input_until; by left|].
  intros x. apply ends_well_ret.
Qed.

Lemma set_new {V} k (v : V) (d : ODict.t V) :
  k ∉ ODict.keys d -> ODict.set k v d = d ++ [(k, v)].
Proof.
  unfold ODict.keys. induction d as [|[k' v'] d IH]; csimpl; [done|].
  intros Hnot. apply not_elem_of_cons in Hnot as [Hne Hnot].
  destruct (String.eqb_spec k k') as [->|_]; [done|]. by rewrite IH.
Qed.

Lemma collect_blanks defaults acc blanks rest w :
  stdin w = blanks ++ rest ->
  length blanks = length defaults ->
  Forall (fun b => str_strip b = ""%string) blanks ->
  Forall (fun v => (v <? 0) = false) (ODict.values defaults) ->
  NoDup (ODict.keys acc ++ ODict.keys defaults) ->
  for_each defaults ask_weight acc w =
  (Return (acc ++ defaults),
   {| stdin := rest;
      stdout := stdout w ++ ((fun kv => Prompt (weight_prompt kv)) <$> defaults);
      files := files w |}).
Proof.
  revert acc blanks w.
  induction defaults as [|kv defaults IH]; intros acc blanks w Hin Hlen Hblank Hpos Hnodup.
  - destruct blanks; [|done]. simpl in *. rewrite !app_nil_r, <- Hin. by destruct w.
  - destruct blanks as [|b blanks]; [done|].
    apply Forall_cons in Hblank as [Hb Hblank].
    unfold ODict.values in Hpos. csimpl in Hpos.
    apply Forall_cons in Hpos as [Hkv Hpos].
    change (ODict.keys (kv :: defaults)) with (kv.1 :: ODict.keys defaults) in Hnodup.
    assert (kv.1 ∉ ODict.keys acc) as Hfresh.
    { apply NoDup_app in Hnodup as (_ & Hdisj & _).
      intros Hk. apply (Hdisj _ Hk). left. }
    assert (weight_entry kv.2 b = Some kv.2) as Hentry.
    { unfold weight_entry. rewrite Hb. simpl. by rewrite Hkv. }
    simpl. unfold mbind at 1, io_bind, ask_weight at 1, mbind, io_bind, input_until.
    rewrite Hin. simpl. rewrite Hentry. simpl.
    rewrite (set_new _ _ _ Hfresh).
    erewrite (IH (acc ++ [(kv.1, kv.2)]) blanks); simpl.
    + destruct kv. simpl. by rewrite <- !app_assoc.
    + reflexivity.
    + by injection Hlen.
    + done.
    + done.
    + unfold ODict.keys in *. rewrite fmap_app, <- app_assoc. done.
Qed.

(** X14: answering "y" and then leaving every weight blank gives back the
    defaults, when they are not below 0 and already sum to 100 within
    1e-6: each prompt is written once, each blank line takes the
    component's default, and nothing is rescaled. *)
Theorem blank_answers_keep_defaults defaults w yes blanks rest :
  stdin w = yes :: blanks ++ rest ->
  str_lower (str_strip yes) = "y"%string ->
  length blanks = length defaults ->
  Forall (fun b => str_strip b = ""%string) blanks ->
  NoDup (ODict.keys defaults) ->
  Forall (fun v => (v <? 0) = false) (ODict.values defaults) ->
  near_100 (sum_values defaults) = true ->
  prompt_weights defaults w =
  (Return defaults,
   {| stdin := rest;
      stdout := stdout w ++ defaults_listing defaults ++ [Prompt change_prompt]
                ++ ((fun kv => Prompt (weight_prompt kv)) <$> defaults);
      files := files w |}).
Proof.
  intros Hin Hyes Hlen Hblank Hnodup Hpos Hnear.
  unfold prompt_weights, mbind, io_bind, print at 1.
  rewrite show_defaults_run. unfold input. simpl. rewrite Hin, Hyes. simpl.
  erewrite (collect_blanks defaults [] blanks rest); [|reflexivity|done..].
  simpl. rewrite (normalize_unchanged defaults _ Hnear).
  unfold defaults_listing. simpl. by rewrite <- !app_assoc.
Qed.

End Weight_prompts.

Section Whole_percents.

(** All 101 * 101 * 101 triples of whole percents, by evaluation. *)
Lemma whole_check_true a m f :
  (a <= 100)%nat -> (m <= 100)%nat -> (f <= 100)%nat -> whole_check a m f = true.
Proof.
  intros Ha Hm Hf.
  apply (forallb_triples whole_check (seq 0 101));
    [vm_compute; reflexivity|apply in_seq; lia..].
Qed.

(** X15: for weights of the three default components that are whole
    numbers from 0 to 100 with a positive total, the total is the same
    whether [sum] adds plainly or with compensation, and the
    normalization step returns weights that sum to 100 within 1e-6,
    whichever way they are added. *)
Theorem whole_percents_sum_to_100 weights w :
  whole_percents weights ->
  (0 <? sum_values weights) = true ->
  (sum_compensated (ODict.values weights) =? sum_values weights) = true /\
  exists out w',
    normalize weights w = (Return out, w') /\
    near_100 (sum_values out) = true /\
    near_100 (sum_compensated (ODict.values out)) = true.
Proof.
  intros (a & m & f & Ha & Hm & Hf & Hw) Hpos.
  pose proof (whole_check_true a m f Ha Hm Hf) as Hcheck.
  unfold whole_check in Hcheck. rewrite <- Hw in Hcheck.
  rewrite (ltb_zero_not_eqb _ Hpos) in Hcheck. simpl in Hcheck.
  apply andb_true_iff in Hcheck as [Hagree Hout]. split; [done|].
  apply andb_true_iff in Hout as [Hplain Hcomp].
  destruct (1e-6 <? abs (sum_values weights - 100)) eqn:Hfar.
  - eexists. eexists. split; [|by split].
    apply normalize_rescaled; [done|by apply ltb_zero_not_eqb].
  - exists weights, w. split; [|by split].
    unfold normalize. by rewrite Hfar.
Qed.

End Whole_percents.

(** * Further properties of interactive mode *)

Section Interactive_runs.

Context `{Builtins}.

(** X6: interactive mode always ends: it returns, or the input ends
    while a line is awaited and [EOFError] is raised; no other exception
    leaves it, the loop over students cannot go on for ever on a finite
    input, and it takes lines off the input only. *)
Theorem interactive_mode_ends weights w r w' :
  interactive_mode weights w = (r, w') ->
  (length (stdin w') <= length (stdin w))%nat /\
  match r with
  | Return _ => True
  | Raise e => e = EOFError
  | OutOfFuel => False
  end.
Proof. apply ends_well_interactive_mode. Qed.

(** X7: leaving the count blank and then typing "q" (in any case, with
    any white space around) as the first name ends the run at once: the
    banner and the two prompts are written, no student is graded. *)
Theorem quit_at_first_name weights w blank q rest :
  stdin w = blank :: q :: rest ->
  str_strip blank = ""%string ->
  str_lower (str_strip q) = "q"%string ->
  interactive_mode weights w =
  (Return (),
   {| stdin := rest;
      stdout := stdout w ++ [Prompt how_many_prompt; Print quit_banner;
                             Prompt name_prompt];
      files := files w |}).
Proof.
  intros Hin Hblank Hq.
  unfold interactive_mode, mbind at 1, io_bind, fmap, io_fmap, mbind, io_bind, input.
  rewrite Hin. simpl. rewrite Hblank. simpl.
  unfold mbind, io_bind, fmap, io_fmap, mbind, io_bind, input. simpl.
  rewrite Hq. simpl. by rewrite <- !app_assoc.
Qed.

Lemma read_scores_domain components acc w scores w' :
  for_each components ask_score acc w = (Return scores, w') ->
  forall comp, is_Some (scores !! comp) <-> is_Some (acc !! comp) \/ comp ∈ components.
Proof.
  revert acc w. induction components as [|c components IH]; intros acc w; simpl.
  - intros [= <- <-] comp. rewrite elem_of_nil. tauto.
  - intros Hrun comp.
    apply bind_inv in Hrun as [(acc' & w1 & Hask & Hrest)|[(e & _ & [=])|[_ [=]]]].
    apply ask_score_Return in Hask as (s & score & _ & ->).
    rewrite (IH _ _ Hrest comp), elem_of_cons.
    destruct (decide (c = comp)) as [->|Hne].
    + rewrite lookup_insert_eq. split; [intros _; right; by left|].
      intros _. left. by eexists.
    + rewrite lookup_insert_ne by done. split; [tauto|].
      intros [?|[?|?]]; [tauto|congruence|tauto].
Qed.

(** X8: in both modes a student's scores hold exactly the configured
    components: interactive entry and a parsed CSV row give a score to
    every component and to nothing else, so the default of 0 in
    [calculate_weighted_percentage] is never what is used for them. *)
Theorem scores_cover_components components :
  (forall w scores w',
     read_scores components w = (Return scores, w') ->
     forall comp, is_Some (scores !! comp) <-> comp ∈ components) /\
  (forall fieldnames record name scores,
     parse_row components fieldnames record = inr (name, scores) ->
     forall comp, is_Some (scores !! comp) <-> comp ∈ components).
Proof.
  split.
  - intros w scores w' Hrun comp.
    rewrite (read_scores_domain components ∅ w scores w' Hrun comp), lookup_empty.
    split; [intros [[? [=]]|?]; done|by right].
  - intros fieldnames record name scores. unfold parse_row.
    destruct (scores_of_row _ components ∅) as [e|scores'] eqn:Hrow; [done|].
    intros [= _ <-] comp.
    destruct (scores_of_row_inr _ _ _ _ Hrow comp) as [Hin Hout].
    split.
    + intros Hsome. destruct (decide (comp ∈ components)) as [|Hnot]; [done|].
      rewrite (Hout Hnot), lookup_empty in Hsome. by destruct Hsome.
    + intros Hcomp. by destruct (Hin Hcomp) as (_ & _ & _ & ?).
Qed.

Lemma result_lines_app (a b : list event) :
  result_lines (a ++ b) = (result_lines a + result_lines b)%nat.
Proof. unfold result_lines. by rewrite List.filter_app, length_app. Qed.

Lemma quiet_ret {A} (a : A) : quiet (mret a).
Proof. by intros w r w' [= <- <-]. Qed.

Lemma quiet_bind {A B} (m : io A) (k : A -> io B) :
  quiet m -> (forall a, quiet (k a)) -> quiet (m ≫= k).
Proof.
  intros Hm Hk w r w2 Hrun.
  destruct (bind_inv m k w r w2 Hrun)
    as [(a & w1 & Hm1 & Hk1)|[(e & Hm1 & ->)|[Hm1 ->]]].
  - by rewrite (Hk a _ _ _ Hk1), (Hm _ _ _ Hm1).
  - apply (Hm _ _ _ Hm1).
  - apply (Hm _ _ _ Hm1).
Qed.

Lemma quiet_for_each {A S} (xs : list A) (body : A -> S -> io S) s :
  (forall x s', quiet (body x s')) -> quiet (for_each xs body s).
Proof.
  intros Hbody. revert s. induction xs as [|x xs IH]; intros s; simpl.
  - apply quiet_ret.
  - apply quiet_bind; [apply Hbody|apply IH].
Qed.

Lemma quiet_input prompt : quiet (input prompt).
Proof.
  intros w r w'. unfold input.
  destruct (stdin w); intros [= <- <-]; simpl;
    rewrite result_lines_app; unfold result_lines; simpl; lia.
Qed.

Lemma input_until_from_quiet {A} prompt (body : string -> option A) complaint
    inp out r inp' out' :
  is_result (Print complaint) = false ->
  input_until_from prompt body complaint inp out = (r, (inp', out')) ->
  result_lines out' = result_lines out.
Proof.
  intros Hcomplaint. revert out.
  induction inp as [|s inp IH]; intros out; simpl.
  - intros [= <- <- <-]. rewrite result_lines_app. unfold result_lines. simpl. lia.
  - destruct (body s).
    + intros [= <- <- <-]. rewrite result_lines_app. unfold result_lines. simpl. lia.
    + intros Hrec. rewrite (IH _ Hrec), result_lines_app.
      unfold result_lines. simpl in *. rewrite Hcomplaint. simpl. lia.
Qed.

Lemma quiet_read_scores components : quiet (read_scores components).
Proof.
  apply quiet_for_each. intros comp scores.
  apply quiet_bind; [|intros; apply quiet_ret].
  intros w r w'. unfold input_until.
  destruct (input_until_from _ _ _ _ _) as [r0 [inp out]] eqn:Hloop.
  intros [= <- <-]. simpl.
  eapply input_until_from_quiet; [|exact Hloop]. reflexivity.
Qed.

(** One turn of the counted loop prints one result line when it
    returns, and none when it does not. *)
Lemma numbered_student_results components weights i w r w' :
  numbered_student components weights i () w = (r, w') ->
  result_lines (stdout w') =
  (result_lines (stdout w) + match r with Return _ => 1 | _ => 0 end)%nat.
Proof.
  unfold numbered_student. intros Hrun.
  apply bind_inv in Hrun as [(name & w1 & Hname & Hrun)|[(e & Hname & ->)|[Hname ->]]].
  - assert (result_lines (stdout w1) = result_lines (stdout w)) as <-.
    { revert Hname. apply quiet_bind; [apply quiet_input|intros; apply quiet_ret]. }
    apply bind_inv in Hrun
      as [(scores & w2 & Hscores & Hrun)|[(e & Hscores & ->)|[Hscores ->]]].
    + rewrite <- (quiet_read_scores _ _ _ _ Hscores).
      injection Hrun as <- <-. simpl. rewrite result_lines_app.
      unfold result_lines. simpl. lia.
    + rewrite (quiet_read_scores _ _ _ _ Hscores). lia.
    + rewrite (quiet_read_scores _ _ _ _ Hscores). lia.
  - assert (result_lines (stdout w') = result_lines (stdout w)) as ->; [|lia].
    revert Hname. apply quiet_bind; [apply quiet_input|intros; apply quiet_ret].
  - assert (result_lines (stdout w') = result_lines (stdout w)) as ->; [|lia].
    revert Hname. apply quiet_bind; [apply quiet_input|intros; apply quiet_ret].
Qed.

Lemma counted_loop_results components weights xs w r w' :
  for_each xs (numbered_student components weights) () w = (r, w') ->
  match r with
  | Return _ => result_lines (stdout w') = (result_lines (stdout w) + length xs)%nat
  | _ => (result_lines (stdout w') < result_lines (stdout w) + length xs)%nat
  end.
Proof.
  revert w. induction xs as [|x xs IH]; intros w; simpl.
  - intros [= <- <-]. lia.
  - intros Hrun.
    apply bind_inv in Hrun as [([] & w1 & Hx & Hrest)|[(e & Hx & ->)|[Hx ->]]].
    + apply numbered_student_results in Hx. apply IH in Hrest.
      destruct r; lia.
    + apply numbered_student_results in Hx. lia.
    + apply numbered_student_results in Hx. lia.
Qed.

(** X9: with a count [N] typed, interactive mode grades exactly [N]
    students when it returns: [N] result lines are printed, one per
    student; when the input ends early, fewer than [N]. *)
Theorem counted_mode_grades_count weights w n rest count r w' :
  stdin w = n :: rest ->
  str_strip n ≠ ""%string ->
  int_of_str (str_strip n) = Some count ->
  interactive_mode weights w = (r, w') ->
  match r with
  | Return _ =>
      result_lines (stdout w') = (result_lines (stdout w) + Z.to_nat count)%nat
  | _ => (result_lines (stdout w') < result_lines (stdout w) + Z.to_nat count)%nat
  end.
Proof.
  intros Hin Hblank Hint.
  rewrite (interactive_mode_count weights w n rest Hin Hblank), Hint.
  intros Hrun. apply counted_loop_results in Hrun.
  rewrite length_seqZ in Hrun. simpl in Hrun.
  rewrite result_lines_app in Hrun.
  change (result_lines [Prompt how_many_prompt]) with 0%nat in Hrun.
  destruct r; lia.
Qed.

End Interactive_runs.

(** * Further properties of CSV mode *)

Section Csv_runs.

Context `{Builtins}.

(** The loop over the rows prints the line of every row parsed before it
    goes on with what follows them. *)
Lemma report_rows_parsed weights parsed rest w :
  for_each ((inr <$> parsed) ++ rest) (report_row weights) () w =
  for_each rest (report_row weights) ()
    {| stdin := stdin w; stdout := stdout w ++ (row_line weights <$> parsed);
       files := files w |}.
Proof.
  revert w. induction parsed as [|[name scores] parsed IH]; intros w; csimpl.
  - rewrite app_nil_r. by destruct w.
  - unfold mbind, io_bind, report_row at 1, report, print. rewrite IH. simpl.
    by rewrite <- app_assoc.
Qed.

(** With a readable file and a complete header, CSV mode is the loop over
    the parsed rows inside its [try]. *)
Lemma csv_mode_items path weights w fieldnames rows :
  files w !! path = Some (fieldnames :: rows) ->
  first_missing fieldnames ("name"%string :: ODict.keys weights) = None ->
  csv_mode path weights w =
  try_except
    (for_each (parse_row (ODict.keys weights) fieldnames <$>
                 filter (fun record => record ≠ []) rows)
       (report_row weights) ())
    (fun e => print ([Lit "Error processing CSV:"; Lit " "] ++ str_of_exn e)) w.
Proof.
  intros Hfile Hcomplete.
  unfold csv_mode, try_except, parse_csv, open, mbind, io_bind.
  unfold csv_records in *. rewrite Hfile.
  pose proof (check_fields_first_missing fieldnames
                ("name"%string :: ODict.keys weights) w) as Hcheck.
  rewrite Hcomplete in Hcheck.
  unfold mbind, io_bind in Hcheck |- *. by rewrite Hcheck.
Qed.

(** X10: when the header has every required field and every non-empty
    row parses, CSV mode prints one line per non-empty row, in the order
    of the file, each with the row's name, the weighted percentage of
    its scores and the letter for that percentage, and nothing else. *)
Theorem csv_mode_prints_every_row path weights w fieldnames rows parsed :
  files w !! path = Some (fieldnames :: rows) ->
  first_missing fieldnames ("name"%string :: ODict.keys weights) = None ->
  parse_row (ODict.keys weights) fieldnames <$>
    filter (fun record => record ≠ []) rows = inr <$> parsed ->
  csv_mode path weights w =
  (Return (),
   {| stdin := stdin w; stdout := stdout w ++ (row_line weights <$> parsed);
      files := files w |}).
Proof.
  intros Hfile Hcomplete Hparsed.
  rewrite (csv_mode_items path weights w fieldnames rows Hfile Hcomplete), Hparsed.
  unfold try_except.
  rewrite <- (app_nil_r (inr <$> parsed)), report_rows_parsed. done.
Qed.

(** X11: a row that cannot be parsed stops CSV mode where it stands: the
    rows before it have been printed, line by line, then comes the one
    error line, and the rows after it are never looked at. *)
Theorem csv_mode_stops_at_bad_row path weights w fieldnames rows parsed e later :
  files w !! path = Some (fieldnames :: rows) ->
  first_missing fieldnames ("name"%string :: ODict.keys weights) = None ->
  parse_row (ODict.keys weights) fieldnames <$>
    filter (fun record => record ≠ []) rows = (inr <$> parsed) ++ inl e :: later ->
  csv_mode path weights w =
  (Return (),
   {| stdin := stdin w;
      stdout := stdout w ++ (row_line weights <$> parsed)
                ++ [Print ([Lit "Error processing CSV:"; Lit " "] ++ str_of_exn e)];
      files := files w |}).
Proof.
  intros Hfile Hcomplete Hparsed.
  assert (is_Exception e = true) as He.
  { assert (inl e ∈ parse_row (ODict.keys weights) fieldnames <$>
              filter (fun record => record ≠ []) rows) as Hin.
    { rewrite Hparsed. apply elem_of_app. right. left. }
    apply list_elem_of_fmap in Hin as (record & Hrecord & _).
    by apply (parse_row_inl (ODict.keys weights) fieldnames record). }
  rewrite (csv_mode_items path weights w fieldnames rows Hfile Hcomplete), Hparsed.
  unfold try_except. rewrite report_rows_parsed. simpl.
  unfold mbind, io_bind, raise. simpl. rewrite He.
  unfold print, emit. simpl. by rewrite <- app_assoc.
Qed.

End Csv_runs.

(** * Further runs on concrete input *)

Section More_runs.

Import Ascii_builtins.

Local Open Scope string_scope.

Lemma declined_change_keeps_defaults_witness :
  (prompt_weights DEFAULT_WEIGHTS (start [" No "; "3"] ∅)).1 = Return DEFAULT_WEIGHTS.
Proof.
  rewrite (declined_change_keeps_defaults DEFAULT_WEIGHTS (start [" No "; "3"] ∅)
             " No " ["3"] eq_refl); [done|].
  vm_compute. discriminate.
Defined.

Lemma prompt_weights_keeps_components_witness :
  ODict.keys
    [("assignment", 50%float); ("midterm", 25%float); ("final", 25%float)] =
  ODict.keys DEFAULT_WEIGHTS.
Proof.
  eapply (prompt_weights_keeps_components DEFAULT_WEIGHTS
            (start ["y"; "2"; "-1"; "1"; "1"] ∅)).
  - unfold DEFAULT_WEIGHTS, ODict.keys. simpl.
    repeat (constructor; [rewrite ?elem_of_cons, ?elem_of_nil; intuition discriminate|]).
    constructor.
  - vm_compute. reflexivity.
Defined.

Lemma collected_weights_not_negative_witness :
  Forall (fun v => (v <? 0)%float = false)
    (ODict.values [("assignment", 2%float); ("midterm", 30%float); ("final", 0%float)]).
Proof.
  eapply (collected_weights_not_negative DEFAULT_WEIGHTS
            (start ["2"; "-7"; "x"; ""; "0"] ∅)).
  vm_compute. reflexivity.
Defined.

Lemma nan_weight_passes_unnormalized_witness :
  normalize [("assignment", nan); ("midterm", 1%float); ("final", 1%float)]
    (start [] ∅) =
  (Return [("assignment", nan); ("midterm", 1%float); ("final", 1%float)],
   start [] ∅).
Proof.
  destruct nan_weight_passes_unnormalized as (_ & _ & Hnorm).
  apply Hnorm. unfold ODict.values. simpl. left.
Defined.

Lemma prompt_weights_failures_witness :
  let run := prompt_weights DEFAULT_WEIGHTS (start ["y"; "0"; "0"; "0"] ∅) in
  (length (stdin run.2) <= 4)%nat /\
  match run.1 with
  | Return _ => True
  | Raise e => e = EOFError \/ e = zero_weights_error
  | OutOfFuel => False
  end.
Proof.
  apply (prompt_weights_failures DEFAULT_WEIGHTS (start ["y"; "0"; "0"; "0"] ∅)).
  apply surjective_pairing.
Defined.

Lemma interactive_mode_ends_witness :
  let run := interactive_mode DEFAULT_WEIGHTS (start ["2"; "Ann"; "90"] ∅) in
  (length (stdin run.2) <= 3)%nat /\
  match run.1 with
  | Return _ => True
  | Raise e => e = EOFError
  | OutOfFuel => False
  end.
Proof.
  apply (interactive_mode_ends DEFAULT_WEIGHTS (start ["2"; "Ann"; "90"] ∅)).
  apply surjective_pairing.
Defined.

Lemma quit_at_first_name_witness :
  (interactive_mode DEFAULT_WEIGHTS (start [" "; " Q "; "x"] ∅)).1 = Return ().
Proof.
  rewrite (quit_at_first_name DEFAULT_WEIGHTS (start [" "; " Q "; "x"] ∅)
             " " " Q " ["x"]); [done|reflexivity|vm_compute; reflexivity..].
Defined.

Lemma counted_mode_grades_count_witness :
  result_lines
    (stdout (interactive_mode DEFAULT_WEIGHTS
               (start ["2"; "Ann"; "90"; "80"; "70"; "Bob"; "101"; "60"; "50"; "40"] ∅)).2)
  = 2%nat.
Proof.
  pose proof (counted_mode_grades_count DEFAULT_WEIGHTS
                (start ["2"; "Ann"; "90"; "80"; "70"; "Bob"; "101"; "60"; "50"; "40"] ∅)
                "2" ["Ann"; "90"; "80"; "70"; "Bob"; "101"; "60"; "50"; "40"] 2
                (Return ())) as Hcount.
  simpl in Hcount. eapply Hcount.
  - reflexivity.
  - vm_compute. discriminate.
  - vm_compute. reflexivity.
  - vm_compute. reflexivity.
Defined.

Lemma csv_mode_prints_every_row_witness :
  stdout
    (csv_mode "grades.csv" DEFAULT_WEIGHTS
       (start [] {[ "grades.csv" :=
                      [["name"; "assignment"; "midterm"; "final"];
                       ["Alice"; "80"; "70"; "90"]; [];
                       ["Bob"; "150"; "150"; "150"]] ]})).2 =
  [Print [Lit "Alice"; Lit ": "; Fix2 80; Lit "% -> "; Lit "B+"];
   Print [Lit "Bob"; Lit ": "; Fix2 150; Lit "% -> "; Lit "A"]].
Proof.
  rewrite (csv_mode_prints_every_row "grades.csv" DEFAULT_WEIGHTS _
             ["name"; "assignment"; "midterm"; "final"]
             [["Alice"; "80"; "70"; "90"]; []; ["Bob"; "150"; "150"; "150"]]
             [(Some "Alice", {["assignment" := 80%float; "midterm" := 70%float;
                               "final" := 90%float]});
              (Some "Bob", {["assignment" := 150%float; "midterm" := 150%float;
                             "final" := 150%float]})]).
  - vm_compute. reflexivity.
  - vm_compute. reflexivity.
  - vm_compute. reflexivity.
  - vm_compute. reflexivity.
Defined.

Lemma csv_mode_stops_at_bad_row_witness :
  stdout
    (csv_mode "grades.csv" DEFAULT_WEIGHTS
       (start [] {[ "grades.csv" :=
                      [["name"; "assignment"; "midterm"; "final"];
                       ["Alice"; "80"; "70"; "90"];
                       ["Eve"; "n/a"; "70"; "90"];
                       ["Bob"; "60"; "60"; "60"]] ]})).2 =
  [Print [Lit "Alice"; Lit ": "; Fix2 80; Lit "% -> "; Lit "B+"];
   Print [Lit "Error processing CSV:"; Lit " ";
          Lit "could not convert string to float: "; Quoted "n/a"]].
Proof.
  rewrite (csv_mode_stops_at_bad_row "grades.csv" DEFAULT_WEIGHTS _
             ["name"; "assignment"; "midterm"; "final"]
             [["Alice"; "80"; "70"; "90"]; ["Eve"; "n/a"; "70"; "90"];
              ["Bob"; "60"; "60"; "60"]]
             [(Some "Alice", {["assignment" := 80%float; "midterm" := 70%float;
                               "final" := 90%float]})]
             (ValueError [Lit "could not convert string to float: "; Quoted "n/a"])
             [inr (Some "Bob", {["assignment" := 60%float; "midterm" := 60%float;
                                 "final" := 60%float]})]).
  - vm_compute. reflexivity.
  - vm_compute. reflexivity.
  - vm_compute. reflexivity.
  - vm_compute. reflexivity.
Defined.

Lemma whole_percents_sum_to_100_witness :
  exists out w',
    normalize [("assignment", whole 50); ("midterm", whole 25); ("final", whole 50)]
      (start [] ∅) = (Return out, w') /\
    near_100 (sum_values out) = true.
Proof.
  destruct (whole_percents_sum_to_100
              [("assignment", whole 50); ("midterm", whole 25); ("final", whole 50)]
              (start [] ∅)) as (_ & out & w' & Hrun & Hsum & _).
  - exists 50%nat, 25%nat, 50%nat. repeat split; lia.
  - vm_compute. reflexivity.
  - by exists out, w'.
Defined.

Lemma blank_answers_keep_defaults_witness :
  (prompt_weights DEFAULT_WEIGHTS (start [" Y"; ""; "  "; ""; "3"] ∅)).1 =
  Return DEFAULT_WEIGHTS.
Proof.
  rewrite (blank_answers_keep_defaults DEFAULT_WEIGHTS
             (start [" Y"; ""; "  "; ""; "3"] ∅) " Y" [""; "  "; ""] ["3"]);
    [done|reflexivity|vm_compute; reflexivity|reflexivity| | | |vm_compute; reflexivity].
  - repeat constructor.
  - unfold DEFAULT_WEIGHTS, ODict.keys. simpl.
    repeat (constructor; [rewrite ?elem_of_cons, ?elem_of_nil; intuition discriminate|]).
    constructor.
  - repeat constructor.
Defined.

End More_runs.


(** * Runs of the script *)

Section Script_runs.

Import Ascii_builtins Plain_argparse.

Local Open Scope string_scope.

Lemma script_exit_status_witness :
  exit_status (script ["--csv"; "missing.csv"] (start [""] ∅)).1 = 0%Z /\
  exit_status (script ["--csv"] (start [""] ∅)).1 = 2%Z.
Proof.
  split.
  - destruct (script_exit_status ["--csv"; "missing.csv"] (start [""] ∅))
      as (_ & Haccepted).
    destruct (Haccepted {| csv := Some "missing.csv" |} eq_refl) as (_ & Hcsv & _).
    edestruct Hcsv as (_ & Hstatus & _); [| | |exact Hstatus].
    + vm_compute. reflexivity.
    + reflexivity.
    + discriminate.
  - destruct (script_exit_status ["--csv"] (start [""] ∅)) as (Hrejected & _).
    by destruct (Hrejected [] 2%Z eq_refl) as (_ & ?).
Defined.

End Script_runs.
